(** * Provider registry and Z.ai client: a shallow embedding

    The development follows the two TypeScript components of the
    repository, definitions first:

    - [Registry]: [ProviderConfigManager] (config/provider-config.ts), the
      persisted registry of AI providers and its selection policy, as
      functions on registry values;
    - [Store]: the same manager at the level of object references, for
      the methods whose contract is about object identity
      ([exportConfiguration], [importConfiguration]) and the validation
      they run in place;
    - [Client]: [ZaiAPIClient] (src/api/zai-client.ts), the HTTP client
      with its error classification and its streaming loop.

    The facts proved about them follow in [RegistryFacts], [StoreFacts]
    and [ClientFacts].

    Methods that mutate [this] or perform I/O are written in a small
    state-and-exception monad: a thrown value does not roll the state
    back, exactly as in the source. *)

From Stdlib Require Import ZArith QArith String Ascii List Lia Bool DecimalString.
From Stdlib Require Import Sorted Permutation Qround Lqa.
From stdpp Require Import base list strings gmap.

Open Scope string_scope.
Open Scope Z_scope.
Open Scope list_scope.

(** ** State and exceptions *)

Inductive Outcome (E A : Type) : Type :=
| Returned (a : A)
| Thrown (e : E).
Arguments Returned {E A} a.
Arguments Thrown {E A} e.

(** A computation over a mutable state [S] that may throw an [E]. *)
Definition M (S E A : Type) : Type := S -> Outcome E A * S.

Definition ret {S E A} (a : A) : M S E A := fun s => (Returned a, s).

Definition throw {S E A} (e : E) : M S E A := fun s => (Thrown e, s).

Definition bind {S E A B} (c : M S E A) (k : A -> M S E B) : M S E B :=
  fun s =>
    match c s with
    | (Returned a, s') => k a s'
    | (Thrown e, s') => (Thrown e, s')
    end.

(** [try { c } catch (e) { h e }] *)
Definition try_catch {S E E' A} (c : M S E A) (h : E -> M S E' A) : M S E' A :=
  fun s =>
    match c s with
    | (Returned a, s') => (Returned a, s')
    | (Thrown e, s') => h e s'
    end.

(** [try { c } finally { f }], for a [finally] block that cannot throw. *)
Definition try_finally {S E A} (c : M S E A) (f : S -> S) : M S E A :=
  fun s => let '(o, s') := c s in (o, f s').

Definition get {S E} : M S E S := fun s => (Returned s, s).
Definition modify {S E} (f : S -> S) : M S E unit := fun s => (Returned tt, f s).

Declare Scope js_scope.
Delimit Scope js_scope with js.
Notation "x <- c ;; k" := (bind c (fun x => k))
  (at level 100, c at next level, right associativity) : js_scope.
Notation "c ;;; k" := (bind c (fun _ => k))
  (at level 100, right associativity) : js_scope.

(** ** JavaScript strings

    The operations of [String.prototype] the two components use. *)

(** [!s] for a string: only the empty string is falsy. *)
Definition falsy (s : string) : bool := String.eqb s "".

(** [s.startsWith(p)] *)
Definition startsWith (p s : string) : bool := String.prefix p s.

(** [s.includes(sub)] *)
Fixpoint includes (sub s : string) : bool :=
  String.prefix sub s ||
  match s with
  | EmptyString => false
  | String _ s' => includes sub s'
  end.

(** [s.slice(n)] for [0 <= n] *)
Fixpoint slice (n : nat) (s : string) : string :=
  match n, s with
  | O, _ => s
  | S n', String _ s' => slice n' s'
  | S _, EmptyString => EmptyString
  end.

(** [s.split('\n')]: the pieces between line feeds; never empty. *)
Definition LF : ascii := Ascii.ascii_of_nat 10.

Fixpoint split_lines (s : string) : list string :=
  match s with
  | EmptyString => [EmptyString]
  | String c s' =>
      if Ascii.eqb c LF then EmptyString :: split_lines s'
      else match split_lines s' with
           | l :: ls => String c l :: ls
           | [] => [String c EmptyString]
           end
  end.

(** ** JSON values, for the free-form [metadata] record *)

Unset Elimination Schemes.
Inductive JsonValue : Type :=
| JNull
| JBool (b : bool)
| JNumber (q : Q)
| JString (s : string)
| JArray (xs : list JsonValue)
| JObject (fields : list (string * JsonValue)).
Set Elimination Schemes.

(** ** The provider registry (config/provider-config.ts) *)

Module Registry.

Inductive ProviderType := anthropic | openai | zai | custom.

(** [interface ProviderConfig].  Optional fields are [option]s; numbers the
    registry only stores are rationals, [priority] (the one it compares) is
    an integer. *)
Record ProviderConfig : Type := mkProviderConfig {
  name : string;
  type : ProviderType;
  apiKey : string;
  apiUrl : option string;
  model : string;
  temperature : option Q;
  maxTokens : option Z;
  topP : option Q;
  topK : option Z;
  systemPrompt : option string;
  timeout : option Z;
  retryAttempts : option Z;
  retryDelay : option Z;
  enabled : bool;
  priority : Z;
  capabilities : list string;
  metadata : option (list (string * JsonValue))
}.

Definition set_enabled (b : bool) (p : ProviderConfig) : ProviderConfig :=
  {| name := name p; type := type p; apiKey := apiKey p; apiUrl := apiUrl p;
     model := model p; temperature := temperature p; maxTokens := maxTokens p;
     topP := topP p; topK := topK p; systemPrompt := systemPrompt p;
     timeout := timeout p; retryAttempts := retryAttempts p;
     retryDelay := retryDelay p; enabled := b; priority := priority p;
     capabilities := capabilities p; metadata := metadata p |}.

Definition set_apiKey (k : string) (p : ProviderConfig) : ProviderConfig :=
  {| name := name p; type := type p; apiKey := k; apiUrl := apiUrl p;
     model := model p; temperature := temperature p; maxTokens := maxTokens p;
     topP := topP p; topK := topK p; systemPrompt := systemPrompt p;
     timeout := timeout p; retryAttempts := retryAttempts p;
     retryDelay := retryDelay p; enabled := enabled p; priority := priority p;
     capabilities := capabilities p; metadata := metadata p |}.

Inductive Strategy := round_robin | weighted | least_latency.

Record LoadBalancing : Type := mkLoadBalancing {
  lb_enabled : bool;
  strategy : Strategy;
  weights : option (list (string * Q))
}.

(** [Record<string, V>]: the own properties of an object in the order
    [Object.entries] lists them.  A JavaScript object has one value per
    key; [NoDup (keys ps)] says so where a proof needs it. *)
Definition keys {V} (ps : list (string * V)) : list string := map fst ps.

(** The own property [k] of [ps]: what [Object.entries] shows of it. *)
Fixpoint prop {V} (k : string) (ps : list (string * V)) : option V :=
  match ps with
  | [] => None
  | (k', v) :: ps' => if String.eqb k k' then Some v else prop k ps'
  end.

(** The property names of [Object.prototype].  The records of the
    registry are object literals and spreads of them, so they inherit
    these names: under each the lookup [ps[k]] finds a function (the
    prototype itself under [__proto__]) when [ps] has no own property of
    that name.  Such a member is truthy, and as the language defines it
    it has no [enabled] and no [apiKey] property. *)
Definition object_prototype : list string :=
  [ "constructor"; "__defineGetter__"; "__defineSetter__"; "hasOwnProperty";
    "__lookupGetter__"; "__lookupSetter__"; "isPrototypeOf"; "propertyIsEnumerable";
    "toString"; "valueOf"; "__proto__"; "toLocaleString" ].

Definition inherited (k : string) : bool := existsb (String.eqb k) object_prototype.

(** [ps[k]] *)
Inductive Member (V : Type) : Type :=
| Own (v : V)
| Inherited
| Undefined.
Arguments Own {V} v.
Arguments Inherited {V}.
Arguments Undefined {V}.

Definition member {V} (k : string) (ps : list (string * V)) : Member V :=
  match prop k ps with
  | Some v => Own v
  | None => if inherited k then Inherited else Undefined
  end.

(** [ps[k].field = ...]: the object stored under [k] is changed where it
    is, the key keeps its place. *)
Fixpoint update {V} (k : string) (f : V -> V) (ps : list (string * V)) : list (string * V) :=
  match ps with
  | [] => []
  | (k', v) :: ps' =>
      if String.eqb k k' then (k', f v) :: ps' else (k', v) :: update k f ps'
  end.

(** The order of the own properties: the keys that are array indices
    (["0"], or decimal digits without a leading zero, up to [2^32 - 2])
    come first, in increasing order; the other keys follow in the order
    in which they were created. *)
Definition is_digit (c : ascii) : bool :=
  (48 <=? Ascii.N_of_ascii c)%N && (Ascii.N_of_ascii c <=? 57)%N.

Fixpoint decimal (s : string) (acc : N) : option N :=
  match s with
  | EmptyString => Some acc
  | String c s' =>
      if is_digit c then decimal s' (10 * acc + (Ascii.N_of_ascii c - 48))%N else None
  end.

Definition array_index (k : string) : option N :=
  match k with
  | EmptyString => None
  | String c rest =>
      if Ascii.eqb c "0"%char && negb (String.eqb rest "") then None
      else match decimal k 0%N with
           | Some n => if (n <=? 4294967294)%N then Some n else None
           | None => None
           end
  end.

(** A new property under the array index [n]: after the indices below
    [n], before everything else. *)
Fixpoint insert_index {V} (n : N) (kv : string * V) (ps : list (string * V))
    : list (string * V) :=
  match ps with
  | [] => [kv]
  | e :: ps' =>
      match array_index (fst e) with
      | Some n' => if (n' <? n)%N then e :: insert_index n kv ps' else kv :: ps
      | None => kv :: ps
      end
  end.

(** A property [k] with the value [v] defined on [ps], as a spread or
    an object literal does: an existing key keeps its place; a new key
    takes the place the order of the properties gives it. *)
Definition assign {V} (k : string) (v : V) (ps : list (string * V)) : list (string * V) :=
  match prop k ps with
  | Some _ => update k (fun _ => v) ps
  | None =>
      match array_index k with
      | Some n => insert_index n (k, v) ps
      | None => ps ++ [(k, v)]
      end
  end.

(** [{...a, ...b}]: the properties of [b] are assigned to a copy of [a]
    one after the other. *)
Definition spread {V} (a b : list (string * V)) : list (string * V) :=
  fold_left (fun acc kv => assign (fst kv) (snd kv) acc) b a.

(** [interface ProviderRegistry], over the representation [P] of a
    provider: the configuration itself in this module, a reference to it
    in [Store]. *)
Record RegistryOf (P : Type) : Type := mkRegistry {
  activeProvider : string;
  providers : list (string * P);
  fallbackOrder : list string;
  loadBalancing : LoadBalancing
}.
Arguments mkRegistry {P}.
Arguments activeProvider {P}.
Arguments providers {P}.
Arguments fallbackOrder {P}.
Arguments loadBalancing {P}.

Definition ProviderRegistry : Type := RegistryOf ProviderConfig.
Definition Providers : Type := list (string * ProviderConfig).

Definition set_activeProvider {P} (a : string) (r : RegistryOf P) : RegistryOf P :=
  {| activeProvider := a; providers := providers r;
     fallbackOrder := fallbackOrder r; loadBalancing := loadBalancing r |}.

Definition set_providers {P P'} (ps : list (string * P')) (r : RegistryOf P) : RegistryOf P' :=
  {| activeProvider := activeProvider r; providers := ps;
     fallbackOrder := fallbackOrder r; loadBalancing := loadBalancing r |}.

(** *** [Array.prototype.sort] with the comparator
    [([, a], [, b]) => b.priority - a.priority]

    The sort is stable (ECMAScript 2019), so with this comparator its
    result is determined: decreasing priority, equal priorities in their
    original order.  Insertion from the right puts an entry before the
    entries of the sorted tail that do not have a strictly higher
    priority. *)
Fixpoint insert_by_priority (x : string * ProviderConfig) (l : Providers) : Providers :=
  match l with
  | [] => [x]
  | y :: l' =>
      if priority (snd x) <? priority (snd y) then y :: insert_by_priority x l'
      else x :: l
  end.

Definition sort_by_priority (l : Providers) : Providers :=
  fold_right insert_by_priority [] l.

(** [Object.entries(providers).filter(([, p]) => p.enabled).sort(...)] *)
Definition enabledProviders (ps : Providers) : Providers :=
  sort_by_priority (List.filter (fun e => enabled (snd e)) ps).

(** *** The manager *)

(** [process.env], as far as the registry reads it.  An unset variable is
    the empty string: the source reads [process.env.X || ''] and
    [!!process.env.X]. *)
Record Env : Type := mkEnv {
  ANTHROPIC_API_KEY : string;
  OPENAI_API_KEY : string;
  ZAI_API_KEY : string
}.

(** What [JSON.parse] finds in the file at [configPath], for a file
    that holds a registry: any of the four top-level fields may be
    missing, and every entry of [providers] is a provider configuration,
    as in the files [saveConfiguration] writes. *)
Record LoadedRegistry : Type := mkLoaded {
  loaded_activeProvider : option string;
  loaded_providers : option Providers;
  loaded_fallbackOrder : option (list string);
  loaded_loadBalancing : option LoadBalancing
}.

Definition stored (r : ProviderRegistry) : LoadedRegistry :=
  {| loaded_activeProvider := Some (activeProvider r);
     loaded_providers := Some (providers r);
     loaded_fallbackOrder := Some (fallbackOrder r);
     loaded_loadBalancing := Some (loadBalancing r) |}.

(** The file system: the parsed content of the file ([None] when there is
    no file or it is not JSON), and whether a write succeeds. *)
Record Disk : Type := mkDisk {
  file : option LoadedRegistry;
  writable : bool
}.

(** [class ProviderConfigManager]: [this.registry], the environment and
    the file system.  The logger only records messages and is left out. *)
Record Manager : Type := mkManager {
  registry : ProviderRegistry;
  env : Env;
  disk : Disk
}.

Definition set_registry (r : ProviderRegistry) (m : Manager) : Manager :=
  {| registry := r; env := env m; disk := disk m |}.

(** The source throws [new Error(message)] with three kinds of message:
    the two templates below, and whatever [fs] throws in
    [saveConfiguration]. *)
Inductive RegistryError : Type :=
| NotFoundError (providerName : string)
| DisabledProviderError (providerName : string)
| SaveError.

Definition message (e : RegistryError) : string :=
  match e with
  | NotFoundError n => ("Provider " ++ n ++ " not found")%string
  | DisabledProviderError n => ("Provider " ++ n ++ " is not enabled")%string
  | SaveError => "EACCES"
  end.

Definition Method (A : Type) : Type := M Manager RegistryError A.

Definition default_provider (name : string) (type : ProviderType) (key url model : string)
    (priority : Z) (capabilities : list string) : ProviderConfig :=
  {| name := name; type := type; apiKey := key; apiUrl := Some url; model := model;
     temperature := Some (7 # 10)%Q; maxTokens := Some 4096; topP := None; topK := None;
     systemPrompt := None; timeout := None; retryAttempts := None; retryDelay := None;
     enabled := negb (falsy key); priority := priority;
     capabilities := capabilities; metadata := None |}.

(** [getDefaultRegistry] *)
Definition getDefaultRegistry (e : Env) : ProviderRegistry :=
  {| activeProvider := "zai";
     providers :=
       [ ("anthropic",
          default_provider "Anthropic Claude" anthropic (ANTHROPIC_API_KEY e)
            "https://api.anthropic.com/v1/messages" "claude-3-sonnet-20240229" 80
            ["chat"; "reasoning"; "code"; "analysis"]);
         ("openai",
          default_provider "OpenAI GPT" openai (OPENAI_API_KEY e)
            "https://api.openai.com/v1/chat/completions" "gpt-4" 70
            ["chat"; "reasoning"; "code"; "analysis"]);
         ("zai",
          default_provider "Z.ai GLM" zai (ZAI_API_KEY e)
            "https://api.z.ai/v1/chat/completions" "glm-4.5" 90
            ["chat"; "reasoning"; "code"; "analysis"; "chinese"]) ];
     fallbackOrder := ["zai"; "anthropic"; "openai"];
     loadBalancing :=
       {| lb_enabled := false; strategy := weighted;
          weights := Some [("zai", 50 # 1); ("anthropic", 30 # 1); ("openai", 20 # 1)]%Q |} |}.

(** The constructor: [this.registry = this.getDefaultRegistry()]. *)
Definition new_manager (e : Env) (d : Disk) : Manager :=
  {| registry := getDefaultRegistry e; env := e; disk := d |}.

(** [loadConfiguration]: the loaded fields win over the defaults, the
    loaded providers are laid over the default ones; without a readable
    file the registry is left as it is. *)
Definition loadConfiguration : Method unit :=
  modify (fun m =>
    match file (disk m) with
    | Some loadedRegistry =>
        let d := getDefaultRegistry (env m) in
        set_registry
          {| activeProvider := default (activeProvider d) (loaded_activeProvider loadedRegistry);
             providers := spread (providers d) (default [] (loaded_providers loadedRegistry));
             fallbackOrder := default (fallbackOrder d) (loaded_fallbackOrder loadedRegistry);
             loadBalancing := default (loadBalancing d) (loaded_loadBalancing loadedRegistry) |}
          m
    | None => m
    end).

(** [saveConfiguration]: writes the whole registry, or logs and rethrows. *)
Definition saveConfiguration : Method unit :=
  fun m =>
    if writable (disk m)
    then (Returned tt,
          {| registry := registry m; env := env m;
             disk := {| file := Some (stored (registry m)); writable := true |} |})
    else (Thrown SaveError, m).

(** The first loop of [validateProviders]: an enabled provider without a
    key is disabled. *)
Definition validate_entry (p : ProviderConfig) : ProviderConfig :=
  if enabled p && falsy (apiKey p) then set_enabled false p else p.

(** The second half of [validateProviders]: when the active name is not
    an enabled provider (an inherited member is not: it has no [enabled]
    property), switch to the first of the enabled ones by priority; with
    none enabled the source only logs a warning. *)
Definition repair_active (r : ProviderRegistry) : ProviderRegistry :=
  let stale :=
    match prop (activeProvider r) (providers r) with
    | Some activeProvider => negb (enabled activeProvider)
    | None => true
    end in
  if stale then
    match enabledProviders (providers r) with
    | e :: _ => set_activeProvider (fst e) r
    | [] => r
    end
  else r.

(** [validateProviders] on the registry. *)
Definition validate_registry (r : ProviderRegistry) : ProviderRegistry :=
  repair_active
    (set_providers (map (fun e => (fst e, validate_entry (snd e))) (providers r)) r).

Definition validateProviders : Method unit :=
  modify (fun m => set_registry (validate_registry (registry m)) m).

(** [initialize]: a failure of either step falls back to the defaults.
    [loadConfiguration] catches what reading and parsing throw, and
    [validateProviders] reads [enabled] and [apiKey] of provider
    configurations only, so on the files of [LoadedRegistry] neither step
    throws. *)
Definition initialize : Method unit :=
  try_catch (loadConfiguration ;;; validateProviders)%js
    (fun _ => modify (fun m => set_registry (getDefaultRegistry (env m)) m)).

(** [setProviderApiKey].  Under an inherited name the guard lets the
    call through and the two assignments go to the inherited member: the
    registry has no entry to update. *)
Definition setProviderApiKey (providerName apiKey : string) : Method unit :=
  (m <- get ;;
   match member providerName (providers (registry m)) with
   | Undefined => throw (NotFoundError providerName)
   | Own _ | Inherited =>
       modify (fun m =>
         set_registry
           (set_providers
              (update providerName (set_enabled true)
                 (update providerName (set_apiKey apiKey) (providers (registry m))))
              (registry m)) m) ;;;
       saveConfiguration
   end)%js.

(** [setActiveProvider].  An inherited member passes the first guard
    and, having no [enabled] property, fails the second. *)
Definition setActiveProvider (providerName : string) : Method unit :=
  (m <- get ;;
   match member providerName (providers (registry m)) with
   | Undefined => throw (NotFoundError providerName)
   | Inherited => throw (DisabledProviderError providerName)
   | Own p =>
       if negb (enabled p) then throw (DisabledProviderError providerName)
       else
         modify (fun m => set_registry (set_activeProvider providerName (registry m)) m) ;;;
         saveConfiguration
   end)%js.

(** [getActiveProvider]: [null] is [None].  An inherited member has no
    [enabled] property, so it gives [null] like a name that is not
    there: the own property decides. *)
Definition getActiveProvider (m : Manager) : option ProviderConfig :=
  match prop (activeProvider (registry m)) (providers (registry m)) with
  | Some provider => if enabled provider then Some provider else None
  | None => None
  end.

(** [toggleProvider] on the registry. *)
Definition toggle_registry (name : string) (enabled : bool) (r : ProviderRegistry) : ProviderRegistry :=
  let r1 := set_providers (update name (set_enabled enabled) (providers r)) r in
  if negb enabled && String.eqb (activeProvider r1) name then
    match enabledProviders (providers r1) with
    | e :: _ => set_activeProvider (fst e) r1
    | [] => set_activeProvider "" r1
    end
  else r1.

(** [toggleProvider].  Under an inherited name the guard lets the call
    through, the assignment goes to the inherited member, and the
    registry has no entry to update. *)
Definition toggleProvider (name : string) (enabled : bool) : Method unit :=
  (m <- get ;;
   match member name (providers (registry m)) with
   | Undefined => throw (NotFoundError name)
   | Own _ | Inherited =>
       modify (fun m => set_registry (toggle_registry name enabled (registry m)) m) ;;;
       saveConfiguration
   end)%js.

(** *** The invariants of the data model *)

(** [enabled] requires a non-empty [apiKey]. *)
Definition key_invariant (r : ProviderRegistry) : Prop :=
  forall k p, In (k, p) (providers r) -> enabled p = true -> apiKey p <> "".

(** [activeProvider], if non-empty, names an enabled provider. *)
Definition active_invariant (r : ProviderRegistry) : Prop :=
  activeProvider r <> "" ->
  exists p, prop (activeProvider r) (providers r) = Some p /\ enabled p = true.

Definition no_provider_enabled (ps : Providers) : Prop :=
  forall e, In e ps -> enabled (snd e) = false.

(** The active name is settled: it names an enabled provider, or there
    is no enabled provider to switch to. *)
Definition active_settled (r : ProviderRegistry) : Prop :=
  (exists p, prop (activeProvider r) (providers r) = Some p /\ enabled p = true) \/
  no_provider_enabled (providers r).

(** The scenario of the specification: [A] (priority 90) and [B]
    (priority 80), both enabled, [A] active. *)
Definition scenario_provider (n : string) (prio : Z) : ProviderConfig :=
  {| name := n; type := custom; apiKey := ("key-" ++ n)%string; apiUrl := None; model := "m";
     temperature := None; maxTokens := None; topP := None; topK := None;
     systemPrompt := None; timeout := None; retryAttempts := None; retryDelay := None;
     enabled := true; priority := prio; capabilities := []; metadata := None |}.

Definition scenario : Manager :=
  {| registry :=
       {| activeProvider := "A";
          providers := [("A", scenario_provider "A" 90); ("B", scenario_provider "B" 80)];
          fallbackOrder := ["A"; "B"];
          loadBalancing := {| lb_enabled := false; strategy := weighted; weights := None |} |};
     env := mkEnv "" "" "";
     disk := {| file := None; writable := true |} |}.

(** *** The re-selection policy *)

(** The order the comparator asks for, and the entries of one priority
    in the order they have in [l]. *)
Definition higher_first (x y : string * ProviderConfig) : Prop :=
  priority (snd y) <= priority (snd x).

Definition of_priority (v : Z) (l : Providers) : Providers :=
  List.filter (fun e => priority (snd e) =? v) l.

(** [x] is the provider the re-selection policy picks in [ps]: enabled,
    of the highest priority among the enabled ones, and the first such in
    the order of the entries. *)
Definition selected (x : string * ProviderConfig) (ps : Providers) : Prop :=
  enabled (snd x) = true /\
  exists l1 l2, ps = l1 ++ x :: l2 /\
    (forall e, In e l1 -> enabled (snd e) = true -> priority (snd e) < priority (snd x)) /\
    (forall e, In e l2 -> enabled (snd e) = true -> priority (snd e) <= priority (snd x)).

(** *** Sample states *)

(** A fresh installation: no API key in the environment, no file. *)
Definition fresh_install : Manager :=
  new_manager (mkEnv "" "" "") {| file := None; writable := true |}.

(** [scenario] with [B] disabled. *)
Definition scenario_B_disabled : Manager :=
  set_registry
    (set_providers (update "B" (set_enabled false) (providers (registry scenario)))
       (registry scenario))
    scenario.

(** *** The other methods of the manager *)

(** [delete ps[k]] *)
Definition delete_key {V} (k : string) (ps : list (string * V)) : list (string * V) :=
  List.filter (fun e => negb (String.eqb (fst e) k)) ps.

Definition set_name (n : string) (p : ProviderConfig) : ProviderConfig :=
  {| name := n; type := type p; apiKey := apiKey p; apiUrl := apiUrl p;
     model := model p; temperature := temperature p; maxTokens := maxTokens p;
     topP := topP p; topK := topK p; systemPrompt := systemPrompt p;
     timeout := timeout p; retryAttempts := retryAttempts p;
     retryDelay := retryDelay p; enabled := enabled p; priority := priority p;
     capabilities := capabilities p; metadata := metadata p |}.

(** [getAllProviders]: a new record with the same entries. *)
Definition getAllProviders (m : Manager) : Providers := providers (registry m).


(** [addProvider]: [providers[name] = { name, ...config }].  The argument
    is typed [Omit<ProviderConfig, 'name'>], which does not keep the
    object passed from having a [name] of its own: [own_name] is that
    property, if there is one, and the spread puts it over the key.  The
    other fields are those of [config], whose [name] field is not read. *)
Definition named (name : string) (own_name : option string) (config : ProviderConfig)
    : ProviderConfig :=
  set_name (default name own_name) config.

(** [ps[k] = v] by assignment.  It defines the property as [assign]
    does, except under the name [__proto__] when [ps] has no own
    property of that name: the assignment then reaches the setter
    inherited from [Object.prototype], which makes [v] the prototype of
    the object and creates no property.  What the object inherits from
    [v] afterwards is no part of [ps]. *)
Definition put {V} (k : string) (v : V) (ps : list (string * V)) : list (string * V) :=
  match prop k ps with
  | None => if String.eqb k "__proto__" then ps else assign k v ps
  | Some _ => assign k v ps
  end.

Definition addProvider (name : string) (own_name : option string) (config : ProviderConfig)
    : Method unit :=
  (modify (fun m =>
     set_registry
       (set_providers (put name (named name own_name config) (providers (registry m)))
          (registry m)) m) ;;;
   saveConfiguration)%js.

(** [removeProvider] on the registry: the new active provider is chosen
    among the others before the entry is deleted. *)
Definition remove_registry (name : string) (r : ProviderRegistry) : ProviderRegistry :=
  let r1 :=
    if String.eqb (activeProvider r) name then
      match sort_by_priority
              (List.filter
                 (fun e => negb (String.eqb (fst e) name) && enabled (snd e))
                 (providers r)) with
      | e :: _ => set_activeProvider (fst e) r
      | [] => set_activeProvider "" r
      end
    else r in
  set_providers (delete_key name (providers r1)) r1.

(** [removeProvider].  Under an inherited name the guard lets the call
    through and [delete] finds no own property to remove. *)
Definition removeProvider (name : string) : Method unit :=
  (m <- get ;;
   match member name (providers (registry m)) with
   | Undefined => throw (NotFoundError name)
   | Own _ | Inherited =>
       modify (fun m => set_registry (remove_registry name (registry m)) m) ;;;
       saveConfiguration
   end)%js.



(** *** [getNextProvider]

    [random] is the value of [Math.random()].  Numbers are rationals and
    the arithmetic on them is exact, where the source computes in
    doubles: the facts below are those that do not depend on rounding
    (which providers can be returned, and when one is returned), not
    which provider a given draw selects under the [weighted] strategy. *)

(** [weights[name] || 1]: a missing weight and the weight 0 count as 1. *)
Definition weight_of (weights : list (string * Q)) (name : string) : Q :=
  match prop name weights with
  | Some w => if Qeq_bool w 0 then 1%Q else w
  | None => 1%Q
  end.

(** [enabledProviders.reduce((sum, [name]) => sum + (weights[name] || 1), 0)] *)
Definition totalWeight (weights : list (string * Q)) (entries : Providers) : Q :=
  fold_left (fun sum e => (sum + weight_of weights (fst e))%Q) entries 0%Q.

(** The [for] loop of the weighted strategy; [None] when it ends without
    a [return]. *)
Fixpoint weighted_walk (weights : list (string * Q)) (random : Q) (entries : Providers)
    : option ProviderConfig :=
  match entries with
  | [] => None
  | e :: rest =>
      let random' := (random - weight_of weights (fst e))%Q in
      if Qle_bool random' 0 then Some (snd e)
      else weighted_walk weights random' rest
  end.

(** Reading [[1]] of an array element that is not there. *)
Inductive TypeError : Type := CannotReadProperties.

Definition getNextProvider (random : Q) (m : Manager) : Outcome TypeError (option ProviderConfig) :=
  let r := registry m in
  if negb (lb_enabled (loadBalancing r)) then Returned (getActiveProvider m)
  else
    let entries := List.filter (fun e => enabled (snd e)) (providers r) in
    match entries with
    | [] => Returned None
    | first :: _ =>
        match strategy (loadBalancing r) with
        | round_robin =>
            let i := Qfloor (random * inject_Z (Z.of_nat (length entries)))%Q in
            match (if i <? 0 then None else nth_error entries (Z.to_nat i)) with
            | Some e => Returned (Some (snd e))
            | None => Thrown CannotReadProperties
            end
        | weighted =>
            let weights := default [] (weights (loadBalancing r)) in
            match weighted_walk weights (random * totalWeight weights entries)%Q entries with
            | Some provider => Returned (Some provider)
            | None => Returned (Some (snd first))
            end
        | least_latency =>
            match sort_by_priority entries with
            | e :: _ => Returned (Some (snd e))
            | [] => Thrown CannotReadProperties
            end
        end
    end.

(** *** The provider command (cli/commands/provider.ts) *)

(** [ProviderCommand.setProviderWithKey], also the first two steps of
    [setupZai], [setupAnthropic] and [setupOpenAI]. *)
Definition setProviderWithKey (providerName apiKey : string) : Method unit :=
  (setProviderApiKey providerName apiKey ;;;
   setActiveProvider providerName)%js.

(** A process that starts later on the same file system. *)
Definition restart (m : Manager) : Manager := new_manager (env m) (disk m).

(** The registry of the scenario with load balancing on. *)
Definition balanced (s : Strategy) (ws : option (list (string * Q))) : Manager :=
  set_registry
    {| activeProvider := "";
       providers := providers (registry scenario);
       fallbackOrder := fallbackOrder (registry scenario);
       loadBalancing := {| lb_enabled := true; strategy := s; weights := ws |} |}
    scenario.

(** The names of the built-in providers. *)
Definition built_in : list string := ["anthropic"; "openai"; "zai"].

(** A file that has only a provider of its own and no active name. *)
Definition partial_file : LoadedRegistry :=
  {| loaded_activeProvider := None;
     loaded_providers := Some [("local", scenario_provider "local" 10)];
     loaded_fallbackOrder := None;
     loaded_loadBalancing := None |}.

End Registry.

(** ** The manager and its objects by reference

    [exportConfiguration] hands out a new object and
    [importConfiguration] adopts the object it is given: their contracts
    are about which objects are shared.  Here the manager, the registry
    and every provider configuration are objects of a heap, and the
    methods read and write them through references. *)

Module Store.

Definition loc : Type := positive.

(** The three kinds of object of the registry code.  The nested records
    and arrays a registry or a provider holds ([loadBalancing],
    [fallbackOrder], [capabilities], [metadata]) are kept inside their
    owner: the source never writes to them. *)
Inductive Object : Type :=
| ManagerObject (registry : loc)
| RegistryObject (r : Registry.RegistryOf loc)
| ProviderObject (p : Registry.ProviderConfig).

Record World : Type := mkWorld {
  heap : gmap loc Object;
  disk : Registry.Disk
}.

Definition set_heap (h : gmap loc Object) (w : World) : World :=
  {| heap := h; disk := disk w |}.

(** The methods are called on a manager whose [registry] field refers
    to a registry, whose entries refer to provider configurations: the
    facts below are about such heaps.  On another heap a read that does
    not find the expected object stops the method, with [TypeError] for
    every such read; the other errors are the manager's own. *)
Inductive Error : Type :=
| TypeError
| ManagerError (e : Registry.RegistryError).

Definition Method (A : Type) : Type := M World Error A.

(** *** What a reference stands for *)

Definition view_manager (h : gmap loc Object) (this : loc) : option loc :=
  match h !! this with
  | Some (ManagerObject registry) => Some registry
  | _ => None
  end.

Definition view_object (h : gmap loc Object) (l : loc) : option (Registry.RegistryOf loc) :=
  match h !! l with
  | Some (RegistryObject r) => Some r
  | _ => None
  end.

Definition view_provider (h : gmap loc Object) (l : loc) : option Registry.ProviderConfig :=
  match h !! l with
  | Some (ProviderObject p) => Some p
  | _ => None
  end.

(** [Object.entries(providers)] with each provider read. *)
Fixpoint view_entries (h : gmap loc Object) (es : list (string * loc)) : option Registry.Providers :=
  match es with
  | [] => Some []
  | e :: es' =>
      match view_provider h (snd e), view_entries h es' with
      | Some p, Some ps => Some ((fst e, p) :: ps)
      | _, _ => None
      end
  end.

(** The registry at [l] as a value: what [JSON.stringify] writes. *)
Definition view_registry (h : gmap loc Object) (l : loc) : option Registry.ProviderRegistry :=
  match view_object h l with
  | Some o =>
      match view_entries h (Registry.providers o) with
      | Some ps => Some (Registry.set_providers ps o)
      | None => None
      end
  | None => None
  end.

(** The registry a manager holds, as a value; [None] on a heap that does
    not hold a well-formed manager at [this]. *)
Definition view (h : gmap loc Object) (this : loc) : option Registry.ProviderRegistry :=
  match view_manager h this with
  | Some registry => view_registry h registry
  | None => None
  end.

(** Reading through a reference; a [TypeError] when the object is not
    there. *)
Definition reading {A} (f : gmap loc Object -> option A) : Method A :=
  fun w =>
    match f (heap w) with
    | Some a => (Returned a, w)
    | None => (Thrown TypeError, w)
    end.

Definition get_manager (this : loc) : Method loc :=
  reading (fun h => view_manager h this).

Definition get_registry (l : loc) : Method (Registry.RegistryOf loc) :=
  reading (fun h => view_object h l).

Definition get_provider (l : loc) : Method Registry.ProviderConfig :=
  reading (fun h => view_provider h l).

Definition read_entries (es : list (string * loc)) : Method Registry.Providers :=
  reading (fun h => view_entries h es).

(** [JSON.stringify(registry)]: the text is the registry as a value. *)
Definition stringify (l : loc) : Method Registry.ProviderRegistry :=
  reading (fun h => view_registry h l).

(** [l.field = ...]: the object at [l] is replaced where it is. *)
Definition write (l : loc) (o : Object) : Method unit :=
  modify (fun w => set_heap (<[l := o]> (heap w)) w).

(** A new object: a reference that is not in use. *)
Definition alloc (o : Object) : Method loc :=
  fun w =>
    let l := fresh (dom (heap w)) in
    (Returned l, set_heap (<[l := o]> (heap w)) w).

Fixpoint for_each {A} (f : A -> Method unit) (xs : list A) : Method unit :=
  match xs with
  | [] => ret tt
  | x :: xs' => (f x ;;; for_each f xs')%js
  end.

(** [JSON.parse(text)]: one new object per object of the text.  A
    registry holds JSON data only (finite numbers, strings, booleans,
    arrays and records of them; an absent optional field is [None]), so
    the text read back is the registry it was written from. *)
Fixpoint parse_entries (ps : Registry.Providers) : Method (list (string * loc)) :=
  match ps with
  | [] => ret []
  | e :: ps' =>
      (l <- alloc (ProviderObject (snd e)) ;;
       es <- parse_entries ps' ;;
       ret ((fst e, l) :: es))%js
  end.

Definition parse (r : Registry.ProviderRegistry) : Method loc :=
  (es <- parse_entries (Registry.providers r) ;;
   alloc (RegistryObject (Registry.set_providers es r)))%js.

(** [new ProviderConfigManager(...)]: the constructor builds the default
    registry. *)
Definition new_manager (e : Registry.Env) : Method loc :=
  (registry <- parse (Registry.getDefaultRegistry e) ;;
   alloc (ManagerObject registry))%js.

(** [saveConfiguration] *)
Definition saveConfiguration (this : loc) : Method unit :=
  (registry <- get_manager this ;;
   r <- stringify registry ;;
   fun w =>
     if Registry.writable (disk w)
     then (Returned tt,
           {| heap := heap w;
              disk := {| Registry.file := Some (Registry.stored r);
                         Registry.writable := true |} |})
     else (Thrown (ManagerError Registry.SaveError), w))%js.

(** [validateProviders], writing to the objects where they are. *)
Definition validate_provider (e : string * loc) : Method unit :=
  (provider <- get_provider (snd e) ;;
   if Registry.enabled provider && falsy (Registry.apiKey provider)
   then write (snd e) (ProviderObject (Registry.set_enabled false provider))
   else ret tt)%js.

Definition validateProviders (this : loc) : Method unit :=
  (registry <- get_manager this ;;
   o <- get_registry registry ;;
   for_each validate_provider (Registry.providers o) ;;;
   stale <- match Registry.prop (Registry.activeProvider o) (Registry.providers o) with
            | Some l => (activeProvider <- get_provider l ;;
                         ret (negb (Registry.enabled activeProvider)))
            | None => ret true
            end ;;
   if stale : bool then
     (ps <- read_entries (Registry.providers o) ;;
      match Registry.enabledProviders ps with
      | e :: _ =>
          write registry (RegistryObject (Registry.set_activeProvider (fst e) o))
      | [] => ret tt
      end)
   else ret tt)%js.

(** [exportConfiguration]: [JSON.parse(JSON.stringify(this.registry))] *)
Definition exportConfiguration (this : loc) : Method loc :=
  (registry <- get_manager this ;;
   text <- stringify registry ;;
   parse text)%js.

(** [importConfiguration]: [this.registry = registry], then validate and
    save. *)
Definition importConfiguration (this : loc) (registry : loc) : Method unit :=
  (_ <- get_manager this ;;
   write this (ManagerObject registry) ;;;
   validateProviders this ;;;
   saveConfiguration this)%js.

(** *** Copies and later writes *)

(** The objects a registry is made of. *)
Definition registry_objects (h : gmap loc Object) (l : loc) : list loc :=
  match h !! l with
  | Some (RegistryObject o) => l :: map snd (Registry.providers o)
  | _ => [l]
  end.

(** Later writes, to existing or to new objects. *)
Definition mutate (ws : list (loc * Object)) (h : gmap loc Object) : gmap loc Object :=
  fold_left (fun h w => <[fst w := snd w]> h) ws h.

(** [export] then [import] into a new manager; the result is the new
    manager. *)
Definition round_trip (e : Registry.Env) (this : loc) : Method loc :=
  (copy <- exportConfiguration this ;;
   that <- new_manager e ;;
   importConfiguration that copy ;;;
   ret that)%js.

(** A world that holds one manager with the registry [r]. *)
Definition world_of (r : Registry.ProviderRegistry) : Outcome Error loc * World :=
  (registry <- parse r ;; alloc (ManagerObject registry))%js
    {| heap := ∅; disk := {| Registry.file := None; Registry.writable := true |} |}.

(** A registry the methods lead to: in the scenario with [B] disabled,
    [A] is disabled too, which leaves no active provider; then [B] gets
    a key. *)
Definition B_enabled_later : Registry.ProviderRegistry :=
  Registry.registry
    (snd (Registry.setProviderApiKey "B" "key-B"
       (snd (Registry.toggleProvider "A" false Registry.scenario_B_disabled)))).

(** What the first loop of [validateProviders] makes of an object: the
    providers among the entries are validated, everything else is as it
    was. *)
Definition validated_cell (es : list (string * loc)) (l : loc) (o : Object) : Object :=
  match o with
  | ProviderObject p =>
      if decide (l ∈ map snd es) then ProviderObject (Registry.validate_entry p) else o
  | _ => o
  end.

(** The file system after a save of [r], and what the save returns. *)
Definition saved (r : Registry.ProviderRegistry) (d : Registry.Disk) : Registry.Disk :=
  if Registry.writable d
  then {| Registry.file := Some (Registry.stored r); Registry.writable := true |}
  else d.

Definition save_outcome (d : Registry.Disk) : Outcome Error unit :=
  if Registry.writable d then Returned tt else Thrown (ManagerError Registry.SaveError).

End Store.

(** ** The Z.ai client (src/api/zai-client.ts) *)

Module Client.

(** [interface ZaiAPIConfig], over the type [K] of the [apiKey] field:
    [string] in the client, [string | undefined] in what [getConfig]
    returns.  [model] is a string: [process.env.ZAI_MODEL] is cast to
    [ZaiModel] unchecked. *)
Record ConfigOf (K : Type) : Type := mkConfig {
  apiKey : K;
  apiUrl : option string;
  model : option string;
  temperature : option Q;
  maxTokens : option Z;
  topP : option Q;
  systemPrompt : option string;
  timeout : option Z;
  retryAttempts : option Z;
  retryDelay : option Z;
  enableHealthCheck : option bool;
  healthCheckInterval : option Z;
  circuitBreakerThreshold : option Z;
  circuitBreakerTimeout : option Z;
  circuitBreakerResetTimeout : option Z;
  retryJitter : option bool
}.
Arguments mkConfig {K}.
Arguments apiKey {K}.
Arguments apiUrl {K}.
Arguments model {K}.
Arguments temperature {K}.
Arguments maxTokens {K}.
Arguments topP {K}.
Arguments systemPrompt {K}.
Arguments timeout {K}.
Arguments retryAttempts {K}.
Arguments retryDelay {K}.
Arguments enableHealthCheck {K}.
Arguments healthCheckInterval {K}.
Arguments circuitBreakerThreshold {K}.
Arguments circuitBreakerTimeout {K}.
Arguments circuitBreakerResetTimeout {K}.
Arguments retryJitter {K}.

Definition ZaiAPIConfig : Type := ConfigOf string.

(** [{ ...c, apiKey: k }] *)
Definition with_apiKey {K K'} (k : K') (c : ConfigOf K) : ConfigOf K' :=
  {| apiKey := k; apiUrl := apiUrl c; model := model c; temperature := temperature c;
     maxTokens := maxTokens c; topP := topP c; systemPrompt := systemPrompt c;
     timeout := timeout c; retryAttempts := retryAttempts c; retryDelay := retryDelay c;
     enableHealthCheck := enableHealthCheck c;
     healthCheckInterval := healthCheckInterval c;
     circuitBreakerThreshold := circuitBreakerThreshold c;
     circuitBreakerTimeout := circuitBreakerTimeout c;
     circuitBreakerResetTimeout := circuitBreakerResetTimeout c;
     retryJitter := retryJitter c |}.

Inductive Role := user | assistant | system.

Record ZaiMessage : Type := mkMessage {
  role : Role;
  content : string
}.

(** [interface ZaiRequest]; [model] and [messages] are optional too in
    the [Partial<ZaiRequest>] of the per-call options. *)
Record ZaiRequest : Type := mkRequest {
  req_model : option string;
  messages : option (list ZaiMessage);
  max_tokens : option Z;
  req_temperature : option Q;
  top_p : option Q;
  stream : option bool;
  stop : option (list string)
}.

Definition no_options : ZaiRequest :=
  {| req_model := None; messages := None; max_tokens := None; req_temperature := None;
     top_p := None; stream := None; stop := None |}.

Definition or_else {A} (o d : option A) : option A :=
  match o with Some _ => o | None => d end.

(** [{ ...request, ...options }] *)
Definition override (request options : ZaiRequest) : ZaiRequest :=
  {| req_model := or_else (req_model options) (req_model request);
     messages := or_else (messages options) (messages request);
     max_tokens := or_else (max_tokens options) (max_tokens request);
     req_temperature := or_else (req_temperature options) (req_temperature request);
     top_p := or_else (top_p options) (top_p request);
     stream := or_else (stream options) (stream request);
     stop := or_else (stop options) (stop request) |}.

(** A thrown JavaScript value as [handleAPIError] reads it: [error.name],
    the message, [error.code]. *)
Record JsError : Type := mkError {
  name : string;
  message : string;
  code : option string
}.

(** Modelled from the spec: [getErrorMessage] of utils/error-handler.js
    is not in the sources; the classification inspects the message, the
    name and the code of the thrown error, so it is the message of the
    error. *)
Definition getErrorMessage (error : JsError) : string := message error.

(** Modelled from the spec: the error classes of api/claude-api-errors.js
    are not in the sources; one kind per class the client imports, as in
    the taxonomy of the specification. *)
Inductive ErrorKind : Type :=
| ClaudeAPIError
| ClaudeInternalServerError
| ClaudeServiceUnavailableError
| ClaudeRateLimitError
| ClaudeTimeoutError
| ClaudeNetworkError
| ClaudeAuthenticationError
| ClaudeValidationError.

Record APIError : Type := mkAPIError {
  kind : ErrorKind;
  text : string
}.

(** [handleAPIError] *)
Definition handleAPIError (error : JsError) : APIError :=
  let message := getErrorMessage error in
  if String.eqb (name error) "AbortError" then
    mkAPIError ClaudeTimeoutError "Request timed out"
  else if includes "401" message || includes "unauthorized" message then
    mkAPIError ClaudeAuthenticationError "Invalid Z.ai API key"
  else if includes "429" message || includes "rate limit" message then
    mkAPIError ClaudeRateLimitError "Z.ai API rate limit exceeded"
  else if includes "500" message || includes "502" message || includes "503" message then
    mkAPIError ClaudeInternalServerError "Z.ai API server error"
  else if includes "400" message || includes "bad request" message then
    mkAPIError ClaudeValidationError "Invalid request to Z.ai API"
  else if match code error with
          | Some c => String.eqb c "ECONNREFUSED" || String.eqb c "ENOTFOUND"
          | None => false
          end then
    mkAPIError ClaudeNetworkError "Cannot connect to Z.ai API"
  else mkAPIError ClaudeAPIError ("Z.ai API error: " ++ message)%string.

(** [getConfig] *)
Definition mask : string := "****...****".

Definition getConfig (config : ZaiAPIConfig) : ConfigOf (option string) :=
  with_apiKey (if falsy (apiKey config) then None else Some mask) config.

(** The strings a caller finds in what [getConfig] returns. *)
Definition strings_of (c : ConfigOf (option string)) : list string :=
  omap id [apiKey c; apiUrl c; model c; systemPrompt c].

(** The output contains [s] as a literal substring. *)
Definition contains (s : string) (c : ConfigOf (option string)) : bool :=
  existsb (includes s) (strings_of c).

(** *** The world of a client: network, logger, event listeners *)

(** One result of [reader.read()] before [done]: a decoded chunk, or a
    rejection. *)
Inductive ReadResult : Type :=
| Chunk (value : string)
| ReadFailure (error : JsError).

(** What a [fetch] meets.  A rejection covers the abort signal
    ([name = "AbortError"]) and transport failures. *)
Record Response : Type := mkResponse {
  ok : bool;
  status : Z;
  body_text : string;
  body_json : option JsonValue;
  body : option (list ReadResult)
}.

Inductive FetchResult : Type :=
| Rejected (error : JsError)
| Resolved (response : Response).

Record HttpRequest : Type := mkHttp {
  url : option string;
  authorization : string;
  payload : ZaiRequest
}.

Inductive LogLevel := debug | info | warn | error.

Record LogEntry : Type := mkLog {
  level : LogLevel;
  log_message : string;
  log_data : string
}.

Inductive Event : Type :=
| message_sent (request : ZaiRequest) (response : JsonValue)
| streaming_message_sent (request : ZaiRequest)
| error_event (e : APIError).

(** [network] lists what the coming calls of [fetch] will meet; [fetched]
    the calls made so far, [delivered] the calls of [onChunk] made so far,
    each latest first. *)
Record World : Type := mkWorld {
  network : list FetchResult;
  fetched : list HttpRequest;
  logged : list LogEntry;
  emitted : list Event;
  delivered : list JsonValue;
  reader_locked : bool
}.

Definition log (l : LogLevel) (msg data : string) : forall {E}, M World E unit :=
  fun E => modify (fun w =>
    {| network := network w; fetched := fetched w;
       logged := mkLog l msg data :: logged w; emitted := emitted w;
       delivered := delivered w; reader_locked := reader_locked w |}).

Definition emit (e : Event) : forall {E}, M World E unit :=
  fun E => modify (fun w =>
    {| network := network w; fetched := fetched w; logged := logged w;
       emitted := e :: emitted w; delivered := delivered w;
       reader_locked := reader_locked w |}).

Definition set_lock (b : bool) (w : World) : World :=
  {| network := network w; fetched := fetched w; logged := logged w;
     emitted := emitted w; delivered := delivered w; reader_locked := b |}.

Definition refused : JsError :=
  {| name := "TypeError"; message := "fetch failed"; code := Some "ECONNREFUSED" |}.

(** [fetch(url, init)]: the call is recorded and meets the next result of
    the network. *)
Definition fetch (request : HttpRequest) : M World JsError Response :=
  fun w =>
    let w' rest :=
      {| network := rest; fetched := request :: fetched w; logged := logged w;
         emitted := emitted w; delivered := delivered w;
         reader_locked := reader_locked w |} in
    match network w with
    | [] => (Thrown refused, w' [])
    | Rejected e :: rest => (Thrown e, w' rest)
    | Resolved r :: rest => (Returned r, w' rest)
    end.

Definition http (config : ZaiAPIConfig) (request : ZaiRequest) : HttpRequest :=
  {| url := apiUrl config;
     authorization := ("Bearer " ++ apiKey config)%string;
     payload := request |}.

Definition http_error (r : Response) : JsError :=
  {| name := "Error";
     message := ("HTTP " ++ NilZero.string_of_int (Z.to_int (status r)) ++ ": " ++ body_text r)%string;
     code := None |}.

Definition syntax_error : JsError :=
  {| name := "SyntaxError"; message := "Unexpected token"; code := None |}.

(** [makeRequest].  The timer that fires the abort signal is part of the
    network's answer: an aborted [fetch] is a rejection. *)
Definition makeRequest (config : ZaiAPIConfig) (request : ZaiRequest) : M World JsError JsonValue :=
  (response <- fetch (http config request) ;;
   if negb (ok response) then throw (http_error response)
   else match body_json response with
        | Some data => ret data
        | None => throw syntax_error
        end)%js.

Section Streaming.

(** [JSON.parse]: [None] when it throws. *)
Variable JSON_parse : string -> option JsonValue.

(** The caller's callback; it may throw. *)
Variable onChunk : JsonValue -> M World JsError unit.

Definition deliver (parsed : JsonValue) : M World JsError unit :=
  modify (fun w =>
    {| network := network w; fetched := fetched w; logged := logged w;
       emitted := emitted w; delivered := parsed :: delivered w;
       reader_locked := reader_locked w |}).

(** The [try] block of the loop with its [catch]: what [JSON.parse] or
    [onChunk] throws is logged, and nothing is thrown further. *)
Definition handle_data (data : string) : M World JsError unit :=
  try_catch
    match JSON_parse data with
    | Some parsed => (deliver parsed ;;; onChunk parsed)%js
    | None => throw syntax_error
    end
    (fun parseError => log warn "Failed to parse streaming chunk" data).

(** The [for (const line of lines)] loop; [true] when it left the
    function by [return]. *)
Fixpoint process_lines (lines : list string) : M World JsError bool :=
  match lines with
  | [] => ret false
  | line :: rest =>
      if startsWith "data: " line then
        let data := slice 6 line in
        if String.eqb data "[DONE]" then ret true
        else (handle_data data ;;; process_lines rest)%js
      else process_lines rest
  end.

(** The [while (true)] loop over [reader.read()]; [true] when it ended
    by [return], [false] by [break] at [done]. *)
Fixpoint read_loop (chunks : list ReadResult) : M World JsError bool :=
  match chunks with
  | [] => ret false
  | Chunk value :: more =>
      (returned <- process_lines (split_lines value) ;;
       if returned : bool then ret true else read_loop more)%js
  | ReadFailure e :: _ => throw e
  end.

(** [makeStreamingRequest] *)
Definition makeStreamingRequest (config : ZaiAPIConfig) (request : ZaiRequest) : M World JsError unit :=
  (response <- fetch (http config request) ;;
   if negb (ok response) then throw (http_error response)
   else match body response with
        | None =>
            throw {| name := "Error"; message := "No response body for streaming request";
                     code := None |}
        | Some chunks =>
            modify (set_lock true) ;;;
            try_finally (read_loop chunks ;;; ret tt) (set_lock false)
        end)%js.

End Streaming.

Section Sending.

(** [circuitBreaker('zai-api', ...).execute] of utils/helpers.js, which
    is not in the sources: any wrapper of the guarded operation. *)
Variable execute : forall A, M World JsError A -> M World JsError A.

Definition base_request (config : ZaiAPIConfig) (msgs : list ZaiMessage) (streaming : bool) : ZaiRequest :=
  {| req_model := model config; messages := Some msgs; max_tokens := maxTokens config;
     req_temperature := temperature config; top_p := topP config;
     stream := Some streaming; stop := None |}.

Definition classify_and_rethrow {A} (what : string) (error : JsError) : M World APIError A :=
  (log Client.error what (getErrorMessage error) ;;;
   let apiError := handleAPIError error in
   emit (error_event apiError) ;;;
   throw apiError)%js.

(** [sendMessage] *)
Definition sendMessage (config : ZaiAPIConfig) (msgs : list ZaiMessage) (options : ZaiRequest)
    : M World APIError JsonValue :=
  (log debug "Sending message to Z.ai API" "" ;;;
   if falsy (apiKey config) then
     throw (mkAPIError ClaudeAuthenticationError "Z.ai API key is required")
   else
     let request := override (base_request config msgs false) options in
     try_catch
       (execute _
          (response <- makeRequest config request ;;
           emit (message_sent request response) ;;;
           ret response))
       (classify_and_rethrow "Failed to send message to Z.ai API"))%js.

(** [sendStreamingMessage] *)
Definition sendStreamingMessage (JSON_parse : string -> option JsonValue)
    (config : ZaiAPIConfig) (msgs : list ZaiMessage)
    (onChunk : JsonValue -> M World JsError unit) (options : ZaiRequest)
    : M World APIError unit :=
  (log debug "Sending streaming message to Z.ai API" "" ;;;
   if falsy (apiKey config) then
     throw (mkAPIError ClaudeAuthenticationError "Z.ai API key is required")
   else
     let request := override (base_request config msgs true) options in
     try_catch
       (execute _
          (makeStreamingRequest JSON_parse onChunk config request ;;;
           emit (streaming_message_sent request)))
       (classify_and_rethrow "Failed to send streaming message to Z.ai API"))%js.

End Sending.

(** *** Sample configurations, answers and errors *)

Definition sample_config (key : string) : ZaiAPIConfig :=
  {| apiKey := key; apiUrl := Some "https://api.z.ai/v1/chat/completions";
     model := Some "glm-4.5"; temperature := Some (7 # 10)%Q; maxTokens := Some 4096;
     topP := Some (1 # 1)%Q; systemPrompt := None; timeout := Some 60000;
     retryAttempts := Some 3; retryDelay := Some 1000; enableHealthCheck := Some true;
     healthCheckInterval := Some 300000; circuitBreakerThreshold := Some 5;
     circuitBreakerTimeout := Some 60000; circuitBreakerResetTimeout := Some 300000;
     retryJitter := Some true |}.

Definition answer (r : Response) : World :=
  {| network := [Resolved r]; fetched := []; logged := []; emitted := [];
     delivered := []; reader_locked := false |}.

Definition completion : Response :=
  {| ok := true; status := 200; body_text := "{}"; body_json := Some (JObject []);
     body := None |}.

(** A circuit breaker that is closed: the operation runs. *)
Definition closed_circuit : forall A, M World JsError A -> M World JsError A :=
  fun A operation => operation.

Definition hello : list ZaiMessage := [mkMessage user "Hello"].

(** What [makeRequest] throws on an HTTP 429 whose body mentions a
    request number. *)
Definition too_many_requests : JsError :=
  http_error {| ok := false; status := 429;
                body_text := "Too Many Requests (request 14015)";
                body_json := None; body := None |}.

Definition aborted : JsError :=
  {| name := "AbortError"; message := "This operation was aborted"; code := None |}.

Definition unauthorized : JsError :=
  http_error {| ok := false; status := 401; body_text := "unauthorized";
                body_json := None; body := None |}.

Definition rate_limited : JsError :=
  http_error {| ok := false; status := 429; body_text := "rate limit exceeded";
                body_json := None; body := None |}.

(** *** A sample stream *)

(** The sentinel line. *)
Definition DONE : string := "data: [DONE]".

(** A toy [JSON.parse] that accepts the empty object only, and a callback
    without effect. *)
Definition parse_empty_object (s : string) : option JsonValue :=
  if String.eqb s "{}" then Some (JObject []) else None.

Definition ignore_chunk (chunk : JsonValue) : M World JsError unit := ret tt.

(** A body in three chunks.  The second holds a good event, a malformed
    one and the sentinel, with a line after it; the third is never
    read. *)
Definition first_chunk : string :=
  String.append ": keep-alive" (String LF "").

Definition second_chunk : string :=
  String.append "data: {}"
    (String LF (String.append "data: {oops"
      (String LF (String.append DONE (String LF "data: {}"))))).

Definition sse_body : list ReadResult :=
  [Chunk first_chunk; Chunk second_chunk; ReadFailure refused].

Definition sse_response : Response :=
  {| ok := true; status := 200; body_text := ""; body_json := None;
     body := Some sse_body |}.

(** *** Circuit breakers, triggers and streams, for the facts below *)

(** A circuit breaker that lets the operation through: its [execute]
    runs the operation and passes on what it returns or throws. *)
Definition transparent (execute : forall A, M World JsError A -> M World JsError A) : Prop :=
  forall A (operation : M World JsError A) w, execute A operation w = operation w.

(** The substrings [handleAPIError] looks for in a message. *)
Definition triggers : list string :=
  ["401"; "unauthorized"; "429"; "rate limit"; "500"; "502"; "503"; "400"; "bad request"].

(** The chunks of a body with a line feed put between them. *)
Fixpoint join_chunks (values : list string) : string :=
  match values with
  | [] => ""
  | value :: more =>
      match more with
      | [] => value
      | _ :: _ => (value ++ String LF (join_chunks more))%string
      end
  end.

Section Payloads.

Variable JSON_parse : string -> option JsonValue.

(** The events of a list of lines: the payloads of the [data: ] lines
    that [JSON.parse] accepts, up to the sentinel. *)
Fixpoint payloads (lines : list string) : list JsonValue :=
  match lines with
  | [] => []
  | line :: rest =>
      if startsWith "data: " line then
        let data := slice 6 line in
        if String.eqb data "[DONE]" then []
        else match JSON_parse data with
             | Some parsed => parsed :: payloads rest
             | None => payloads rest
             end
      else payloads rest
  end.

End Payloads.

(** An HTTP 503 answer, and a page that is missing. *)
Definition unavailable : Response :=
  {| ok := false; status := 503; body_text := "Service Unavailable";
     body_json := None; body := None |}.

Definition missing : Response :=
  {| ok := false; status := 404; body_text := "Not Found"; body_json := None; body := None |}.

(** A callback that throws on every chunk. *)
Definition failing_chunk (chunk : JsonValue) : M World JsError unit :=
  throw {| name := "Error"; message := "callback failed"; code := None |}.

(** *** The health check *)

(** [HealthCheckResult], with the fields [performHealthCheck] gives it;
    [timestamp] in milliseconds like [Date.now()]. *)
Record HealthCheckResult : Type := mkHealth {
  healthy : bool;
  responseTime : Z;
  timestamp : Z;
  health_error : option string;
  details_apiUrl : option string;
  details_model : option string
}.

(** The client with its [lastHealthCheck] field and the [health_check]
    events it has emitted, latest first. *)
Record Monitored : Type := mkMonitored {
  client : World;
  lastHealthCheck : option HealthCheckResult;
  health_checks : list HealthCheckResult
}.

Definition lift {E A} (c : M World E A) : M Monitored E A :=
  fun s =>
    let '(o, w) := c (client s) in
    (o, {| client := w; lastHealthCheck := lastHealthCheck s;
           health_checks := health_checks s |}).

(** [this.lastHealthCheck = result; this.emit('health_check', result)] *)
Definition report {E} (result : HealthCheckResult) : M Monitored E unit :=
  modify (fun s =>
    {| client := client s; lastHealthCheck := Some result;
       health_checks := result :: health_checks s |}).

Definition testMessage : ZaiMessage :=
  mkMessage user "Hello, this is a health check.".

(** [{ max_tokens: 10 }] *)
Definition health_options : ZaiRequest :=
  {| req_model := None; messages := None; max_tokens := Some 10; req_temperature := None;
     top_p := None; stream := None; stop := None |}.

(** Modelled from the spec: [getErrorMessage] on an error of the API
    classes is the message the error was built with. *)
Definition getErrorMessage_api (error : APIError) : string := text error.

(** [performHealthCheck].  The clock is read three times: [Date.now()]
    at the start, [Date.now()] and [new Date()] when the result is
    built. *)
Definition performHealthCheck
    (execute : forall A, M World JsError A -> M World JsError A)
    (config : ZaiAPIConfig) (startTime endTime date : Z)
    : M Monitored APIError HealthCheckResult :=
  try_catch
    (lift (sendMessage execute config [testMessage] health_options) ;;;
     let result :=
       {| healthy := true; responseTime := endTime - startTime; timestamp := date;
          health_error := None;
          details_apiUrl := apiUrl config; details_model := model config |} in
     report result ;;;
     ret result)%js
    (fun error =>
       let result :=
         {| healthy := false; responseTime := endTime - startTime; timestamp := date;
            health_error := Some (getErrorMessage_api error);
            details_apiUrl := apiUrl config; details_model := model config |} in
       report result ;;;
       ret result)%js.

(** [getLastHealthCheck] *)
Definition getLastHealthCheck (s : Monitored) : option HealthCheckResult :=
  lastHealthCheck s.

(** A client that has made no health check. *)
Definition unmonitored (w : World) : Monitored :=
  {| client := w; lastHealthCheck := None; health_checks := [] |}.

(** A body with one event, and a body that fails after its first chunk. *)
Definition single_event : Response :=
  {| ok := true; status := 200; body_text := ""; body_json := None;
     body := Some [Chunk "data: {}"] |}.

Definition broken_response : Response :=
  {| ok := true; status := 200; body_text := ""; body_json := None;
     body := Some [Chunk first_chunk; ReadFailure refused] |}.

(** A body whose text begins with the sentinel line, followed by an
    event; the reads end with a failure.  In [sentinel_whole] the text
    arrives in one read, in [sentinel_cut] in two reads that cut the
    sentinel line. *)
Definition sentinel_text : string :=
  String.append DONE (String LF "data: {}").

Definition sentinel_whole : Response :=
  {| ok := true; status := 200; body_text := ""; body_json := None;
     body := Some [Chunk sentinel_text; ReadFailure refused] |}.

Definition sentinel_cut : Response :=
  {| ok := true; status := 200; body_text := ""; body_json := None;
     body := Some [Chunk "data: [DO"; Chunk (String.append "NE]" (String LF "data: {}"));
                   ReadFailure refused] |}.

(** An event cut in two by a chunk boundary. *)
Definition cut_body : list string := ["data: {"; "}"].

End Client.

(** ** Facts about the registry *)

Module RegistryFacts.

Import Registry.

(** *** The providers as a map *)

Lemma prop_In {V} (k : string) (v : V) ps : prop k ps = Some v -> In (k, v) ps.
Proof.
  induction ps as [|[k' v'] ps IH]; simpl; [discriminate|].
  destruct (String.eqb_spec k k') as [->|Hne].
  - intros [= ->]. now left.
  - intros H. right. now apply IH.
Qed.

Lemma In_prop {V} (k : string) (v : V) ps :
  NoDup (keys ps) -> In (k, v) ps -> prop k ps = Some v.
Proof.
  induction ps as [|[k' v'] ps IH]; simpl; [contradiction|].
  intros Hnd [Heq|Hin].
  - injection Heq as -> ->. now rewrite String.eqb_refl.
  - apply NoDup_cons in Hnd as [Hnotin Hnd].
    destruct (String.eqb_spec k k') as [->|Hne].
    + exfalso. apply Hnotin, list_elem_of_In. unfold keys.
      apply in_map_iff. now exists (k', v).
    + now apply IH.
Qed.

Lemma keys_update {V} (k : string) (f : V -> V) ps : keys (update k f ps) = keys ps.
Proof.
  induction ps as [|[k' v'] ps IH]; simpl; [reflexivity|].
  destruct (String.eqb k k'); simpl; [reflexivity|]. now rewrite IH.
Qed.

Lemma prop_update_eq {V} (k : string) (f : V -> V) ps :
  prop k (update k f ps) = option_map f (prop k ps).
Proof.
  induction ps as [|[k' v'] ps IH]; simpl; [reflexivity|].
  destruct (String.eqb k k') eqn:E; simpl; rewrite E; [reflexivity|apply IH].
Qed.

Lemma prop_update_ne {V} (k k' : string) (f : V -> V) ps :
  k <> k' -> prop k' (update k f ps) = prop k' ps.
Proof.
  intros Hne. induction ps as [|[k0 v0] ps IH]; simpl; [reflexivity|].
  destruct (String.eqb_spec k k0) as [->|Hne0]; simpl.
  - destruct (String.eqb_spec k' k0) as [->|_]; [congruence|reflexivity].
  - destruct (String.eqb k' k0); [reflexivity|apply IH].
Qed.

(** An entry of an updated object is an old entry, or the changed one. *)
Lemma In_update {V} (k : string) (f : V -> V) ps e :
  In e (update k f ps) ->
  In e ps \/ exists v, In (k, v) ps /\ e = (k, f v).
Proof.
  induction ps as [|[k' v'] ps IH]; simpl; [tauto|].
  destruct (String.eqb_spec k k') as [->|Hne]; simpl.
  - intros [<-|Hin]; [right; exists v'; auto | left; auto].
  - intros [<-|Hin]; [left; auto|].
    destruct (IH Hin) as [H|[v [H1 H2]]]; [left; auto | right; exists v; auto].
Qed.

(** *** The sort

    [sort_by_priority] is the stable sort by decreasing priority: its
    result is a permutation of its argument, in decreasing order of
    priority, with the entries of any one priority in their original
    order.  These three properties determine the result, and they are
    what ECMAScript asks of [Array.prototype.sort] for this comparator. *)

Lemma insert_by_priority_perm x l : Permutation (x :: l) (insert_by_priority x l).
Proof.
  induction l as [|y l IH]; simpl; [reflexivity|].
  destruct (priority (snd x) <? priority (snd y)); [|reflexivity].
  rewrite perm_swap. now apply perm_skip.
Qed.

Lemma sort_by_priority_perm l : Permutation l (sort_by_priority l).
Proof.
  induction l as [|x l IH]; simpl; [reflexivity|].
  rewrite <- insert_by_priority_perm. now apply perm_skip.
Qed.

Lemma insert_by_priority_sorted x l :
  StronglySorted higher_first l -> StronglySorted higher_first (insert_by_priority x l).
Proof.
  induction l as [|y l IH]; intros Hs; simpl.
  - repeat constructor.
  - apply StronglySorted_inv in Hs as [Hs Hy].
    destruct (Z.ltb_spec (priority (snd x)) (priority (snd y))) as [Hlt|Hge].
    + constructor; [now apply IH|].
      rewrite <- insert_by_priority_perm. constructor; [unfold higher_first; lia|exact Hy].
    + constructor; [now constructor|]. constructor; [exact Hge|].
      eapply Forall_impl; [exact Hy|]. unfold higher_first. intros z Hz. simpl in Hz. lia.
Qed.

Lemma sort_by_priority_sorted l : StronglySorted higher_first (sort_by_priority l).
Proof.
  induction l as [|x l IH]; simpl; [constructor|now apply insert_by_priority_sorted].
Qed.

Lemma insert_by_priority_stable v x l :
  of_priority v (insert_by_priority x l) = of_priority v (x :: l).
Proof.
  unfold of_priority. induction l as [|y l IH]; [reflexivity|].
  cbn [insert_by_priority].
  destruct (Z.ltb_spec (priority (snd x)) (priority (snd y))) as [Hlt|Hge]; [|reflexivity].
  cbn [List.filter] in *. rewrite IH.
  destruct (Z.eqb_spec (priority (snd x)) v) as [Hx|Hx];
    destruct (Z.eqb_spec (priority (snd y)) v) as [Hy|Hy]; try reflexivity. lia.
Qed.

Lemma sort_by_priority_stable v l :
  of_priority v (sort_by_priority l) = of_priority v l.
Proof.
  induction l as [|x l IH]; [reflexivity|].
  cbn [sort_by_priority fold_right]. rewrite insert_by_priority_stable.
  unfold of_priority in *. cbn [List.filter]. fold (sort_by_priority l). now rewrite IH.
Qed.

(** *** The head of the sorted list of enabled providers *)

Lemma enabledProviders_cons e ps :
  enabledProviders (e :: ps) =
  if enabled (snd e) then insert_by_priority e (enabledProviders ps)
  else enabledProviders ps.
Proof. unfold enabledProviders. simpl. now destruct (enabled (snd e)). Qed.

Lemma enabledProviders_head ps :
  match enabledProviders ps with
  | [] => no_provider_enabled ps
  | x :: _ => selected x ps
  end.
Proof.
  induction ps as [|a ps IH].
  - intros e [].
  - rewrite enabledProviders_cons. destruct (enabled (snd a)) eqn:Ea.
    + destruct (enabledProviders ps) as [|y s]; simpl.
      * split; [assumption|]. exists [], ps. repeat split; [intros e []|].
        intros e He Hen. rewrite (IH e He) in Hen. discriminate.
      * destruct IH as [Hy (l1 & l2 & -> & H1 & H2)].
        destruct (Z.ltb_spec (priority (snd a)) (priority (snd y))) as [Hlt|Hge].
        -- split; [assumption|]. exists (a :: l1), l2. repeat split; [|assumption].
           intros e [<-|He] Hen; [assumption|now apply H1].
        -- split; [assumption|]. exists [], (l1 ++ y :: l2). repeat split; [intros e []|].
           intros e He Hen. apply in_app_or in He as [He|[<-|He]].
           ++ specialize (H1 e He Hen). lia.
           ++ assumption.
           ++ specialize (H2 e He Hen). lia.
    + destruct (enabledProviders ps) as [|y s].
      * intros e [<-|He]; [assumption|now apply IH].
      * destruct IH as [Hy (l1 & l2 & -> & H1 & H2)].
        split; [assumption|]. exists (a :: l1), l2. repeat split; [|assumption].
        intros e [<-|He] Hen; [congruence|now apply H1].
Qed.

(** *** [validateProviders] *)

Lemma validate_entry_key p :
  enabled (validate_entry p) = true -> apiKey (validate_entry p) <> "".
Proof.
  unfold validate_entry, falsy.
  destruct (enabled p) eqn:E; simpl.
  - destruct (String.eqb_spec (apiKey p) ""); simpl; congruence.
  - rewrite E. discriminate.
Qed.

Lemma validate_entry_idem p : validate_entry (validate_entry p) = validate_entry p.
Proof.
  unfold validate_entry.
  destruct (enabled p && falsy (apiKey p)) eqn:E; [reflexivity|now rewrite E].
Qed.

Lemma providers_repair_active r : providers (repair_active r) = providers r.
Proof.
  unfold repair_active.
  destruct (match prop _ _ with Some a => negb (enabled a) | None => true end);
    [|reflexivity].
  now destruct (enabledProviders (providers r)).
Qed.

Lemma providers_validate_registry r :
  providers (validate_registry r) =
  map (fun e => (fst e, validate_entry (snd e))) (providers r).
Proof. unfold validate_registry. now rewrite providers_repair_active. Qed.

(** Validation re-establishes the key invariant, whatever the registry. *)
Lemma key_invariant_validate_registry r : key_invariant (validate_registry r).
Proof.
  intros k p Hin Hen. rewrite providers_validate_registry in Hin.
  apply in_map_iff in Hin as [[k0 p0] [[= <- <-] _]].
  now apply validate_entry_key.
Qed.

(** With no provider enabled, the repair leaves [activeProvider] as it
    was. *)
Lemma repair_active_none_enabled r :
  no_provider_enabled (providers r) -> activeProvider (repair_active r) = activeProvider r.
Proof.
  intros Hnone. unfold repair_active.
  destruct (match prop _ _ with Some a => negb (enabled a) | None => true end);
    [|reflexivity].
  pose proof (enabledProviders_head (providers r)) as H.
  destruct (enabledProviders (providers r)) as [|x s]; [reflexivity|].
  destruct H as [Hx (l1 & l2 & Heq & _)].
  rewrite (Hnone x) in Hx; [discriminate|]. rewrite Heq. apply in_elt.
Qed.


(** C1 (the code at the failing input).  On a fresh installation
    [initialize] returns normally, its validation pass leaves no provider
    enabled, and [activeProvider] is still ["zai"], not the empty string:
    [validateProviders] only logs a warning where [toggleProvider] and
    [removeProvider] assign [''].  *)
Theorem initialize_keeps_stale_activeProvider :
  fst (initialize fresh_install) = Returned tt /\
  forallb (fun e => negb (enabled (snd e)))
    (providers (registry (snd (initialize fresh_install)))) = true /\
  activeProvider (registry (snd (initialize fresh_install))) = "zai" /\
  activeProvider (registry (snd (toggleProvider "zai" false fresh_install))) = "".
Proof. repeat split; vm_compute; reflexivity. Qed.

(** *** [toggleProvider] *)

Lemma toggleProvider_state name b m p :
  prop name (providers (registry m)) = Some p ->
  registry (snd (toggleProvider name b m)) = toggle_registry name b (registry m).
Proof.
  intros Hp. unfold toggleProvider, bind, get, member. simpl. rewrite Hp.
  unfold modify, saveConfiguration. simpl.
  now destruct (writable (disk m)).
Qed.

(** C2.  When the active provider is enabled, [toggleProvider(active,
    false)] disables it where it stands and makes active the enabled
    provider of highest priority among the others, the first such in the
    order of the entries; with none left enabled, [activeProvider] is the
    empty string.  This is the state also when saving fails afterwards. *)
Theorem toggleProvider_active_reselects (m : Manager) (p : ProviderConfig) :
  NoDup (keys (providers (registry m))) ->
  prop (activeProvider (registry m)) (providers (registry m)) = Some p ->
  enabled p = true ->
  let a := activeProvider (registry m) in
  let r' := registry (snd (toggleProvider a false m)) in
  providers r' = update a (set_enabled false) (providers (registry m)) /\
  ((no_provider_enabled (providers r') /\ activeProvider r' = "") \/
   (exists x, selected x (providers r') /\ fst x <> a /\ activeProvider r' = fst x)).
Proof.
  intros Hnd Hp Hen a r'. subst r'.
  rewrite (toggleProvider_state _ _ _ _ Hp). subst a.
  set (a := activeProvider (registry m)) in *.
  unfold toggle_registry. simpl. rewrite String.eqb_refl.
  set (ps' := update a (set_enabled false) (providers (registry m))).
  pose proof (enabledProviders_head ps') as H.
  destruct (enabledProviders ps') as [|x s]; simpl.
  - split; [reflexivity|]. left. split; [exact H|reflexivity].
  - split; [reflexivity|]. right. exists x. repeat split; try apply H.
    intros Hx. destruct H as [Hex (l1 & l2 & Heq & _)].
    assert (Hin : In x ps') by (rewrite Heq; apply in_elt).
    assert (Hnd' : NoDup (keys ps')) by (unfold ps'; now rewrite keys_update).
    destruct x as [k q]. simpl in *. subst k.
    apply (In_prop _ _ _ Hnd') in Hin. unfold ps' in Hin.
    rewrite prop_update_eq, Hp in Hin. simpl in Hin.
    injection Hin as <-. discriminate.
Qed.

(** The scenario of the specification: [A] is disabled and [B] becomes
    active. *)
Lemma toggleProvider_active_reselects_witness :
  NoDup (keys (providers (registry scenario))) /\
  providers (registry (snd (toggleProvider "A" false scenario))) =
    update "A" (set_enabled false) (providers (registry scenario)) /\
  activeProvider (registry (snd (toggleProvider "A" false scenario))) = "B".
Proof.
  assert (Hnd : NoDup (keys (providers (registry scenario)))).
  { apply (bool_decide_unpack _). vm_compute. exact I. }
  split; [exact Hnd|].
  destruct (toggleProvider_active_reselects scenario (scenario_provider "A" 90)
              Hnd eq_refl eq_refl) as [H _].
  split; [exact H|reflexivity].
Defined.

(** *** [setActiveProvider] *)




(** *** [getActiveProvider] *)


(** *** [setProviderApiKey] *)

Lemma setProviderApiKey_state name key m p :
  prop name (providers (registry m)) = Some p ->
  providers (registry (snd (setProviderApiKey name key m))) =
  update name (set_enabled true) (update name (set_apiKey key) (providers (registry m))).
Proof.
  intros Hp. unfold setProviderApiKey, bind, get, member. simpl. rewrite Hp.
  unfold modify, saveConfiguration. simpl.
  now destruct (writable (disk m)).
Qed.

(** C10.  For a provider [name] of the registry and any [key],
    [setProviderApiKey(name, key)] leaves that provider with the new key
    and [enabled = true], whether or not saving succeeds.  With the empty
    key the registry then breaks the key invariant, and the next
    validation pass restores it by disabling the provider. *)
Theorem setProviderApiKey_forces_enabled (m : Manager) (name key : string) (p : ProviderConfig) :
  prop name (providers (registry m)) = Some p ->
  let r' := registry (snd (setProviderApiKey name key m)) in
  prop name (providers r') = Some (set_enabled true (set_apiKey key p)) /\
  (key = "" ->
     ~ key_invariant r' /\
     key_invariant (validate_registry r') /\
     prop name (providers (validate_registry r'))
       = Some (set_enabled false (set_apiKey "" p))).
Proof.
  intros Hp r'.
  assert (Hr' : prop name (providers r') = Some (set_enabled true (set_apiKey key p))).
  { subst r'. rewrite (setProviderApiKey_state _ _ _ _ Hp).
    now rewrite !prop_update_eq, Hp. }
  split; [exact Hr'|]. intros ->. repeat split.
  - intros Hinv. apply (Hinv name _ (prop_In _ _ _ Hr')); reflexivity.
  - apply key_invariant_validate_registry.
  - rewrite providers_validate_registry.
    clear -Hr'. induction (providers r') as [|[k v] ps IH]; simpl in *; [discriminate|].
    destruct (String.eqb name k); [|now apply IH].
    injection Hr' as ->. reflexivity.
Qed.

(** In the scenario, [A] is given the empty key. *)
Lemma setProviderApiKey_forces_enabled_witness :
  prop "A" (providers (registry (snd (setProviderApiKey "A" "" scenario))))
    = Some (set_enabled true (set_apiKey "" (scenario_provider "A" 90))) /\
  ~ key_invariant (registry (snd (setProviderApiKey "A" "" scenario))) /\
  prop "A" (providers (validate_registry (registry (snd (setProviderApiKey "A" "" scenario)))))
    = Some (set_enabled false (set_apiKey "" (scenario_provider "A" 90))).
Proof.
  destruct (setProviderApiKey_forces_enabled scenario "A" "" (scenario_provider "A" 90) eq_refl)
    as [H1 H2].
  destruct (H2 eq_refl) as (H3 & _ & H4).
  exact (conj H1 (conj H3 H4)).
Defined.

(** *** More on the providers as a map *)

Lemma prop_app {V} (k : string) (a b : list (string * V)) :
  prop k (a ++ b) = match prop k a with Some v => Some v | None => prop k b end.
Proof.
  induction a as [|[k' v'] a IH]; simpl; [reflexivity|].
  destruct (String.eqb k k'); [reflexivity|apply IH].
Qed.

Lemma prop_None_keys {V} (k : string) (ps : list (string * V)) :
  prop k ps = None <-> ~ In k (keys ps).
Proof.
  induction ps as [|[k' v'] ps IH]; simpl; [tauto|].
  destruct (String.eqb_spec k k') as [->|Hne].
  - split; [discriminate|]. intros H. exfalso. apply H. now left.
  - rewrite IH. split; [intros H [E|E]; [congruence|tauto]|tauto].
Qed.

Lemma prop_insert_index {V} (n : N) (k k' : string) (v : V) ps :
  prop k ps = None ->
  prop k' (insert_index n (k, v) ps) = if String.eqb k' k then Some v else prop k' ps.
Proof.
  induction ps as [|[k0 v0] ps IH]; intros Hk; [reflexivity|].
  simpl in Hk. destruct (String.eqb_spec k k0) as [->|Hne]; [discriminate|].
  cbn [insert_index fst].
  destruct (array_index k0) as [n'|]; [destruct (n' <? n)%N|]; try reflexivity.
  cbn [prop]. rewrite (IH Hk).
  destruct (String.eqb_spec k' k0) as [->|Hne']; [|reflexivity].
  destruct (String.eqb_spec k0 k); [congruence|reflexivity].
Qed.

(** A new property goes in somewhere among the old ones, which keep
    their order. *)
Lemma insert_index_split {V} (n : N) (kv : string * V) ps :
  exists l1 l2, ps = l1 ++ l2 /\ insert_index n kv ps = l1 ++ kv :: l2 /\
    (forall e, In e l1 -> exists n', array_index (fst e) = Some n' /\ (n' < n)%N) /\
    (forall e l2', l2 = e :: l2' ->
       forall n', array_index (fst e) = Some n' -> (n <= n')%N).
Proof.
  induction ps as [|e ps IH].
  - exists [], []. repeat split; [intros e []|discriminate].
  - cbn [insert_index].
    destruct (array_index (fst e)) as [n'|] eqn:Ee.
    + destruct (N.ltb_spec n' n) as [Hlt|Hge].
      * destruct IH as (l1 & l2 & -> & -> & H1 & H2).
        exists (e :: l1), l2. repeat split; [|exact H2].
        intros e0 [<-|Hin]; [now exists n'|now apply H1].
      * exists [], (e :: ps). repeat split; [intros e0 []|].
        intros e0 l2' [= <- <-] n0 Hn0. congruence.
    + exists [], (e :: ps). repeat split; [intros e0 []|].
      intros e0 l2' [= <- <-] n0 Hn0. congruence.
Qed.

Lemma prop_assign {V} (k k' : string) (v : V) ps :
  prop k' (assign k v ps) = if String.eqb k' k then Some v else prop k' ps.
Proof.
  unfold assign. destruct (prop k ps) as [v0|] eqn:E.
  - destruct (String.eqb_spec k' k) as [->|Hne].
    + now rewrite prop_update_eq, E.
    + apply prop_update_ne. congruence.
  - destruct (array_index k) as [n|]; [now apply prop_insert_index|].
    rewrite prop_app. simpl. destruct (String.eqb_spec k' k) as [->|Hne].
    + now rewrite E.
    + now destruct (prop k' ps).
Qed.

(** The keys after an assignment: those there were, in their order, and
    the new one. *)
Lemma keys_assign {V} (k : string) (v : V) ps :
  match prop k ps with
  | Some _ => keys (assign k v ps) = keys ps
  | None =>
      exists l1 l2, keys ps = l1 ++ l2 /\ keys (assign k v ps) = l1 ++ k :: l2
  end.
Proof.
  unfold assign. destruct (prop k ps); [apply keys_update|].
  destruct (array_index k) as [n|].
  - destruct (insert_index_split n (k, v) ps) as (l1 & l2 & -> & -> & _).
    exists (keys l1), (keys l2). unfold keys. rewrite !map_app. now split.
  - exists (keys ps), []. unfold keys. rewrite map_app, app_nil_r. now split.
Qed.


Lemma NoDup_assign {V} (k : string) (v : V) ps :
  NoDup (keys ps) -> NoDup (keys (assign k v ps)).
Proof.
  intros Hnd. pose proof (keys_assign k v ps) as H.
  destruct (prop k ps) eqn:E; [now rewrite H|].
  destruct H as (l1 & l2 & Hps & ->). rewrite Hps in Hnd.
  apply prop_None_keys in E. rewrite Hps in E.
  apply NoDup_app in Hnd as (Hn1 & Hdisj & Hn2).
  apply NoDup_app. split; [exact Hn1|]. split.
  - intros x Hx1 Hx2. apply elem_of_cons in Hx2 as [->|Hx2].
    + apply E, in_or_app. left. now apply list_elem_of_In.
    + now apply (Hdisj x).
  - apply NoDup_cons. split; [|exact Hn2].
    intros Hin. apply E, in_or_app. right. now apply list_elem_of_In.
Qed.

Lemma prop_delete_key {V} (k k' : string) (ps : list (string * V)) :
  prop k' (delete_key k ps) = if String.eqb k' k then None else prop k' ps.
Proof.
  unfold delete_key. induction ps as [|[k0 v0] ps IH]; simpl.
  - now destruct (String.eqb k' k).
  - destruct (String.eqb_spec k0 k) as [->|Hne]; simpl.
    + rewrite IH. destruct (String.eqb_spec k' k) as [->|Hne']; [reflexivity|].
      destruct (String.eqb_spec k' k); [congruence|reflexivity].
    + rewrite IH. destruct (String.eqb_spec k' k0) as [->|Hne'].
      * destruct (String.eqb_spec k0 k); [congruence|reflexivity].
      * reflexivity.
Qed.

Lemma NoDup_delete_key {V} (k : string) (ps : list (string * V)) :
  NoDup (keys ps) -> NoDup (keys (delete_key k ps)).
Proof.
  unfold delete_key. induction ps as [|[k0 v0] ps IH]; simpl; [auto|].
  intros [Hnotin Hnd]%NoDup_cons.
  destruct (negb (String.eqb k0 k)); simpl; [|now apply IH].
  apply NoDup_cons. split; [|now apply IH].
  intros Hin. apply Hnotin. apply list_elem_of_In in Hin. apply list_elem_of_In.
  unfold keys in *. apply in_map_iff in Hin as [e [He Hin]].
  apply filter_In in Hin as [Hin _]. apply in_map_iff. now exists e.
Qed.

Lemma prop_spread {V} (k : string) (a b : list (string * V)) :
  NoDup (keys b) ->
  prop k (spread a b) = match prop k b with Some v => Some v | None => prop k a end.
Proof.
  unfold spread. revert a. induction b as [|[k0 v0] b IH]; intros a Hnd; simpl; [reflexivity|].
  apply NoDup_cons in Hnd as [Hnotin Hnd].
  rewrite (IH _ Hnd), prop_assign.
  destruct (String.eqb_spec k k0) as [->|Hne]; [|reflexivity].
  assert (Hb : prop k0 b = None).
  { apply prop_None_keys. intros Hin. apply Hnotin. now apply list_elem_of_In. }
  now rewrite Hb.
Qed.

Lemma NoDup_spread {V} (a b : list (string * V)) :
  NoDup (keys a) -> NoDup (keys (spread a b)).
Proof.
  unfold spread. revert a. induction b as [|[k0 v0] b IH]; intros a Hnd; simpl; [exact Hnd|].
  apply IH. now apply NoDup_assign.
Qed.


(** *** Validation establishes what it can *)




Lemma NoDup_scenario : NoDup (keys (providers (registry scenario))).
Proof. apply (bool_decide_unpack _). vm_compute. exact I. Qed.


(** *** [setActiveProvider], [toggleProvider], unknown names *)

(** X2.  For an enabled provider [setActiveProvider] makes it the active
    one and touches no provider; [getActiveProvider] then returns it.
    The call returns normally and the file holds the new registry when
    the file can be written, and throws the save error otherwise, with
    the registry already changed. *)
Theorem setActiveProvider_activates (m : Manager) (x : string) (p : ProviderConfig) :
  prop x (providers (registry m)) = Some p -> enabled p = true ->
  fst (setActiveProvider x m)
    = (if writable (disk m) then Returned tt else Thrown SaveError) /\
  registry (snd (setActiveProvider x m)) = set_activeProvider x (registry m) /\
  getActiveProvider (snd (setActiveProvider x m)) = Some p /\
  (writable (disk m) = true ->
   file (disk (snd (setActiveProvider x m)))
     = Some (stored (set_activeProvider x (registry m)))).
Proof.
  intros Hp Hen. unfold setActiveProvider, bind, get, member. simpl. rewrite Hp, Hen. simpl.
  unfold modify, saveConfiguration, getActiveProvider. simpl.
  destruct (writable (disk m)); simpl; rewrite Hp, Hen; repeat split; congruence.
Qed.

Lemma setActiveProvider_activates_witness :
  fst (setActiveProvider "B" scenario) = Returned tt /\
  activeProvider (registry (snd (setActiveProvider "B" scenario))) = "B" /\
  getActiveProvider (snd (setActiveProvider "B" scenario))
    = Some (scenario_provider "B" 80).
Proof.
  destruct (setActiveProvider_activates scenario "B" (scenario_provider "B" 80)
              eq_refl eq_refl) as (H1 & H2 & H3 & _).
  split; [exact H1|]. split; [now rewrite H2|exact H3].
Defined.




(** X4.  [toggleProvider] changes the [enabled] flag of the one provider
    and nothing else of the providers; [activeProvider] moves only when
    the active provider itself is disabled.  In particular enabling a
    provider never makes it active. *)
Theorem toggleProvider_frame (m : Manager) (x : string) (b : bool) (p : ProviderConfig) :
  prop x (providers (registry m)) = Some p ->
  prop x (providers (registry (snd (toggleProvider x b m)))) = Some (set_enabled b p) /\
  (forall k, k <> x ->
     prop k (providers (registry (snd (toggleProvider x b m))))
       = prop k (providers (registry m))) /\
  keys (providers (registry (snd (toggleProvider x b m)))) = keys (providers (registry m)) /\
  (b = true \/ activeProvider (registry m) <> x ->
   activeProvider (registry (snd (toggleProvider x b m))) = activeProvider (registry m)).
Proof.
  intros Hp. rewrite (toggleProvider_state _ _ _ _ Hp).
  assert (Hps : providers (toggle_registry x b (registry m))
                = update x (set_enabled b) (providers (registry m))).
  { unfold toggle_registry. simpl.
    destruct (negb b && String.eqb (activeProvider (registry m)) x); [|reflexivity].
    now destruct (enabledProviders _). }
  rewrite Hps. repeat split.
  - now rewrite prop_update_eq, Hp.
  - intros k Hk. apply prop_update_ne. congruence.
  - apply keys_update.
  - intros H. unfold toggle_registry. simpl.
    destruct H as [->|Hne]; [reflexivity|].
    apply String.eqb_neq in Hne. rewrite Hne, andb_false_r. reflexivity.
Qed.

Lemma toggleProvider_frame_witness :
  prop "B" (providers (registry (snd (toggleProvider "B" false scenario))))
    = Some (set_enabled false (scenario_provider "B" 80)) /\
  activeProvider (registry (snd (toggleProvider "B" false scenario))) = "A" /\
  activeProvider
    (registry (snd (toggleProvider "B" true
       (snd (toggleProvider "A" false scenario_B_disabled))))) = "".
Proof.
  destruct (toggleProvider_frame scenario "B" false (scenario_provider "B" 80) eq_refl)
    as (H1 & _ & _ & H4).
  split; [exact H1|]. split; [apply H4; right; discriminate|].
  destruct (toggleProvider_frame (snd (toggleProvider "A" false scenario_B_disabled)) "B" true
              (set_enabled false (scenario_provider "B" 80)) eq_refl) as (_ & _ & _ & H).
  rewrite H by now left. reflexivity.
Defined.

(** *** [addProvider] and [removeProvider] *)

Lemma put_assign {V} (k : string) (v : V) ps :
  k <> "__proto__" -> put k v ps = assign k v ps.
Proof.
  intros Hk. apply String.eqb_neq in Hk. unfold put. rewrite Hk.
  now destruct (prop k ps).
Qed.

(** X5.  After [addProvider(name, config)], for a name other than
    [__proto__], the registry holds [config] under [name]; its display
    name is the key, unless the object passed has a [name] of its own,
    which then wins.  Every other provider and [activeProvider] are as
    before.  The keys there were keep their order: an existing key keeps
    its place, a new key that is no array index comes last, and a new
    key that is an array index goes after the smaller indices and before
    every other key.  Nothing is validated: when the active provider is
    replaced by a disabled configuration, [getActiveProvider] returns
    [null]. *)
Theorem addProvider_adds
    (m : Manager) (x : string) (own_name : option string) (config : ProviderConfig) :
  x <> "__proto__" ->
  prop x (providers (registry (snd (addProvider x own_name config m))))
    = Some (set_name (default x own_name) config) /\
  (forall k, k <> x ->
     prop k (providers (registry (snd (addProvider x own_name config m))))
       = prop k (providers (registry m))) /\
  match prop x (providers (registry m)) with
  | Some _ =>
      keys (providers (registry (snd (addProvider x own_name config m))))
        = keys (providers (registry m))
  | None =>
      match array_index x with
      | None =>
          keys (providers (registry (snd (addProvider x own_name config m))))
            = keys (providers (registry m)) ++ [x]
      | Some n =>
          exists l1 l2,
            providers (registry m) = l1 ++ l2 /\
            keys (providers (registry (snd (addProvider x own_name config m))))
              = keys l1 ++ x :: keys l2 /\
            (forall e, In e l1 -> exists n', array_index (fst e) = Some n' /\ (n' < n)%N) /\
            (forall e l2', l2 = e :: l2' ->
               forall n', array_index (fst e) = Some n' -> (n <= n')%N)
      end
  end /\
  activeProvider (registry (snd (addProvider x own_name config m)))
    = activeProvider (registry m) /\
  (activeProvider (registry m) = x -> enabled config = false ->
   getActiveProvider (snd (addProvider x own_name config m)) = None).
Proof.
  intros Hx.
  assert (Hr : registry (snd (addProvider x own_name config m))
               = set_providers
                   (assign x (named x own_name config) (providers (registry m)))
                   (registry m)).
  { unfold addProvider, bind, modify, saveConfiguration. simpl.
    rewrite (put_assign _ _ _ Hx). now destruct (writable (disk m)). }
  rewrite Hr. simpl. split; [|split; [|split; [|split]]].
  - now rewrite prop_assign, String.eqb_refl.
  - intros k Hk. rewrite prop_assign. apply String.eqb_neq in Hk. now rewrite Hk.
  - unfold assign. destruct (prop x (providers (registry m))); [apply keys_update|].
    destruct (array_index x) as [n|].
    + destruct (insert_index_split n (x, named x own_name config) (providers (registry m)))
        as (l1 & l2 & Hps & Hins & H1 & H2).
      exists l1, l2. rewrite Hins. unfold keys. rewrite map_app. repeat split; assumption.
    + unfold keys. now rewrite map_app.
  - reflexivity.
  - intros Ha Hen. unfold getActiveProvider. rewrite Hr. simpl.
    rewrite Ha, prop_assign, String.eqb_refl. unfold named. simpl. now rewrite Hen.
Qed.

(** A provider added to the scenario under the name ["7"] is listed
    first; one added under ["C"] with a name of its own is listed last
    and keeps that name. *)
Lemma addProvider_adds_witness :
  prop "7" (providers (registry (snd (addProvider "7" None (scenario_provider "x" 10)
                                        scenario))))
    = Some (set_name "7" (scenario_provider "x" 10)) /\
  keys (providers (registry (snd (addProvider "7" None (scenario_provider "x" 10) scenario))))
    = ["7"; "A"; "B"] /\
  keys (providers (registry (snd (addProvider "C" (Some "mine") (scenario_provider "x" 10)
                                    scenario))))
    = ["A"; "B"; "C"] /\
  option_map name
    (prop "C" (providers (registry (snd (addProvider "C" (Some "mine")
                                          (scenario_provider "x" 10) scenario)))))
    = Some "mine".
Proof.
  assert (H7ne : "7" <> "__proto__") by discriminate.
  assert (HCne : "C" <> "__proto__") by discriminate.
  destruct (addProvider_adds scenario "7" None (scenario_provider "x" 10) H7ne)
    as (H7 & _ & _).
  destruct (addProvider_adds scenario "C" (Some "mine") (scenario_provider "x" 10) HCne)
    as (HC & _ & HCk & _).
  split; [exact H7|]. split; [reflexivity|]. split; [exact HCk|]. now rewrite HC.
Defined.

Lemma filter_others_enabled x (ps : Providers) :
  List.filter (fun e => negb (String.eqb (fst e) x) && enabled (snd e)) ps
  = List.filter (fun e => enabled (snd e)) (delete_key x ps).
Proof.
  unfold delete_key. induction ps as [|e ps IH]; simpl; [reflexivity|].
  destruct (negb (String.eqb (fst e) x)); simpl; rewrite IH; reflexivity.
Qed.

Lemma removeProvider_state x m p :
  prop x (providers (registry m)) = Some p ->
  registry (snd (removeProvider x m)) = remove_registry x (registry m) /\
  fst (removeProvider x m) = (if writable (disk m) then Returned tt else Thrown SaveError) /\
  (writable (disk m) = true ->
   disk (snd (removeProvider x m))
     = {| file := Some (stored (remove_registry x (registry m))); writable := true |}) /\
  env (snd (removeProvider x m)) = env m.
Proof.
  intros Hp. unfold removeProvider, bind, get, member. simpl. rewrite Hp.
  unfold modify, saveConfiguration. simpl.
  destruct (writable (disk m)); repeat split; congruence.
Qed.

Lemma providers_remove_registry x r :
  providers (remove_registry x r) = delete_key x (providers r).
Proof.
  unfold remove_registry. destruct (String.eqb (activeProvider r) x); [|reflexivity].
  now destruct (sort_by_priority _).
Qed.

(** X6.  [removeProvider(name)] deletes the entry and leaves every other
    provider as it was.  When the removed provider was the active one,
    the new active provider is the enabled provider of highest priority
    among those that remain (the first such), or the empty string;
    otherwise [activeProvider] is unchanged. *)
Theorem removeProvider_removes (m : Manager) (x : string) (p : ProviderConfig) :
  prop x (providers (registry m)) = Some p ->
  prop x (providers (registry (snd (removeProvider x m)))) = None /\
  (forall k, k <> x ->
     prop k (providers (registry (snd (removeProvider x m))))
       = prop k (providers (registry m))) /\
  (activeProvider (registry m) <> x ->
   activeProvider (registry (snd (removeProvider x m))) = activeProvider (registry m)) /\
  (activeProvider (registry m) = x ->
   (no_provider_enabled (providers (registry (snd (removeProvider x m)))) /\
    activeProvider (registry (snd (removeProvider x m))) = "") \/
   (exists e, selected e (providers (registry (snd (removeProvider x m)))) /\
              activeProvider (registry (snd (removeProvider x m))) = fst e)).
Proof.
  intros Hp. destruct (removeProvider_state x m p Hp) as [-> _].
  rewrite providers_remove_registry. repeat split.
  - now rewrite prop_delete_key, String.eqb_refl.
  - intros k Hk. rewrite prop_delete_key. apply String.eqb_neq in Hk. now rewrite Hk.
  - intros Hne. unfold remove_registry. apply String.eqb_neq in Hne. now rewrite Hne.
  - intros Ha. unfold remove_registry. rewrite Ha, String.eqb_refl.
    rewrite filter_others_enabled.
    pose proof (enabledProviders_head (delete_key x (providers (registry m)))) as H.
    unfold enabledProviders in H.
    destruct (sort_by_priority _) as [|e s]; simpl.
    + left. split; [exact H|reflexivity].
    + right. exists e. split; [exact H|reflexivity].
Qed.

Lemma removeProvider_removes_witness :
  prop "A" (providers (registry (snd (removeProvider "A" scenario)))) = None /\
  prop "B" (providers (registry (snd (removeProvider "A" scenario))))
    = Some (scenario_provider "B" 80) /\
  activeProvider (registry (snd (removeProvider "A" scenario))) = "B" /\
  activeProvider (registry (snd (removeProvider "B" scenario))) = "A".
Proof.
  destruct (removeProvider_removes scenario "A" (scenario_provider "A" 90) eq_refl)
    as (H1 & H2 & _ & _).
  destruct (removeProvider_removes scenario "B" (scenario_provider "B" 80) eq_refl)
    as (_ & _ & H3 & _).
  split; [exact H1|]. split; [rewrite H2; [reflexivity|discriminate]|].
  split; [reflexivity|]. rewrite H3; [reflexivity|discriminate].
Defined.

(** *** [getStatus] *)



(** *** The command that sets a provider with its key *)

(** X8.  For a provider of the registry, [setProviderWithKey(name, key)]
    ends with that provider enabled, holding [key], and active, whatever
    the key (the empty key included), when the file can be written.
    When it cannot, the first step throws: the provider is already
    enabled with the key in memory, but it is not made active. *)
Theorem setProviderWithKey_activates (m : Manager) (x key : string) (p : ProviderConfig) :
  prop x (providers (registry m)) = Some p ->
  prop x (providers (registry (snd (setProviderWithKey x key m))))
    = Some (set_enabled true (set_apiKey key p)) /\
  (writable (disk m) = true ->
   fst (setProviderWithKey x key m) = Returned tt /\
   activeProvider (registry (snd (setProviderWithKey x key m))) = x /\
   getActiveProvider (snd (setProviderWithKey x key m))
     = Some (set_enabled true (set_apiKey key p)) /\
   file (disk (snd (setProviderWithKey x key m)))
     = Some (stored (registry (snd (setProviderWithKey x key m))))) /\
  (writable (disk m) = false ->
   fst (setProviderWithKey x key m) = Thrown SaveError /\
   activeProvider (registry (snd (setProviderWithKey x key m)))
     = activeProvider (registry m)).
Proof.
  intros Hp.
  set (ps' := update x (set_enabled true) (update x (set_apiKey key) (providers (registry m)))).
  assert (Hps' : prop x ps' = Some (set_enabled true (set_apiKey key p))).
  { unfold ps'. now rewrite !prop_update_eq, Hp. }
  unfold setProviderWithKey, bind at 1.
  unfold setProviderApiKey, bind, get, member. simpl. rewrite Hp.
  unfold modify, saveConfiguration. simpl. fold ps'.
  destruct (writable (disk m)) eqn:Hw; simpl.
  - unfold setActiveProvider, bind, get, member. simpl. rewrite Hps'. simpl.
    unfold modify, getActiveProvider. simpl. rewrite Hps'.
    repeat split; try discriminate; reflexivity.
  - rewrite Hps'. repeat split; try discriminate; reflexivity.
Qed.

Lemma setProviderWithKey_activates_witness :
  fst (setProviderWithKey "B" "" scenario) = Returned tt /\
  activeProvider (registry (snd (setProviderWithKey "B" "" scenario))) = "B" /\
  getActiveProvider (snd (setProviderWithKey "B" "" scenario))
    = Some (set_enabled true (set_apiKey "" (scenario_provider "B" 80))).
Proof.
  destruct (setProviderWithKey_activates scenario "B" "" (scenario_provider "B" 80) eq_refl)
    as (_ & H & _).
  destruct (H eq_refl) as (H1 & H2 & H3 & _). auto.
Defined.

(** *** Loading, and what survives a restart *)

Lemma keys_getDefaultRegistry e : keys (providers (getDefaultRegistry e)) = built_in.
Proof. reflexivity. Qed.

Lemma NoDup_built_in : NoDup built_in.
Proof. apply (bool_decide_unpack _). vm_compute. exact I. Qed.

Lemma loadConfiguration_file m loaded :
  file (disk m) = Some loaded ->
  providers (registry (snd (loadConfiguration m)))
    = spread (providers (getDefaultRegistry (env m))) (default [] (loaded_providers loaded)) /\
  activeProvider (registry (snd (loadConfiguration m)))
    = default "zai" (loaded_activeProvider loaded) /\
  fallbackOrder (registry (snd (loadConfiguration m)))
    = default (fallbackOrder (getDefaultRegistry (env m))) (loaded_fallbackOrder loaded) /\
  loadBalancing (registry (snd (loadConfiguration m)))
    = default (loadBalancing (getDefaultRegistry (env m))) (loaded_loadBalancing loaded) /\
  disk (snd (loadConfiguration m)) = disk m /\
  env (snd (loadConfiguration m)) = env m /\
  fst (loadConfiguration m) = Returned tt.
Proof. intros Hf. unfold loadConfiguration, modify. simpl. rewrite Hf. now repeat split. Qed.


(** X9.  Loading lays the providers of the file over the built-in ones:
    a provider of the file is read as the file has it, a built-in
    provider the file lacks is there with its default configuration, so
    the three built-in names are always present; [activeProvider] is the
    one of the file, or ["zai"] when the file has none. *)
Theorem loadConfiguration_merges (m : Manager) (loaded : LoadedRegistry) :
  file (disk m) = Some loaded ->
  NoDup (keys (default [] (loaded_providers loaded))) ->
  (forall k,
     prop k (providers (registry (snd (loadConfiguration m))))
     = match prop k (default [] (loaded_providers loaded)) with
       | Some p => Some p
       | None => prop k (providers (getDefaultRegistry (env m)))
       end) /\
  NoDup (keys (providers (registry (snd (loadConfiguration m))))) /\
  (forall k, In k built_in -> In k (keys (providers (registry (snd (loadConfiguration m)))))) /\
  activeProvider (registry (snd (loadConfiguration m)))
    = default "zai" (loaded_activeProvider loaded).
Proof.
  intros Hf Hnd. destruct (loadConfiguration_file m loaded Hf) as (Hps & Ha & _).
  rewrite Hps, Ha.
  assert (Hlook : forall k,
     prop k (spread (providers (getDefaultRegistry (env m)))
               (default [] (loaded_providers loaded)))
     = match prop k (default [] (loaded_providers loaded)) with
       | Some p => Some p
       | None => prop k (providers (getDefaultRegistry (env m)))
       end) by (intros k; now apply prop_spread).
  repeat split.
  - exact Hlook.
  - apply NoDup_spread. rewrite keys_getDefaultRegistry. apply NoDup_built_in.
  - intros k Hk.
    destruct (in_dec string_dec k (keys (spread (providers (getDefaultRegistry (env m)))
                (default [] (loaded_providers loaded))))) as [Hin|Hout]; [exact Hin|].
    exfalso. apply prop_None_keys in Hout. rewrite Hlook in Hout.
    destruct (prop k (default [] (loaded_providers loaded))); [discriminate|].
    apply prop_None_keys in Hout. apply Hout. now rewrite keys_getDefaultRegistry.
Qed.

Lemma loadConfiguration_merges_witness :
  keys (providers (registry (snd (loadConfiguration
     (new_manager (mkEnv "" "" "") {| file := Some partial_file; writable := true |})))))
    = ["anthropic"; "openai"; "zai"; "local"] /\
  activeProvider (registry (snd (loadConfiguration
     (new_manager (mkEnv "" "" "") {| file := Some partial_file; writable := true |}))))
    = "zai".
Proof.
  split; [reflexivity|].
  apply (loadConfiguration_merges
           (new_manager (mkEnv "" "" "") {| file := Some partial_file; writable := true |})
           partial_file eq_refl).
  apply (bool_decide_unpack _). vm_compute. exact I.
Defined.

(** X10.  What a manager saved, a manager started later on the same file
    loads: the same [activeProvider], [fallbackOrder] and [loadBalancing],
    and every saved provider with its saved configuration.  A built-in
    provider that was not in the saved registry is loaded with its
    default configuration. *)
Theorem save_then_restart (m : Manager) :
  writable (disk m) = true ->
  NoDup (keys (providers (registry m))) ->
  fst (saveConfiguration m) = Returned tt /\
  activeProvider (registry (snd (loadConfiguration (restart (snd (saveConfiguration m))))))
    = activeProvider (registry m) /\
  fallbackOrder (registry (snd (loadConfiguration (restart (snd (saveConfiguration m))))))
    = fallbackOrder (registry m) /\
  loadBalancing (registry (snd (loadConfiguration (restart (snd (saveConfiguration m))))))
    = loadBalancing (registry m) /\
  (forall k,
     prop k (providers
       (registry (snd (loadConfiguration (restart (snd (saveConfiguration m))))))) 
     = match prop k (providers (registry m)) with
       | Some p => Some p
       | None => prop k (providers (getDefaultRegistry (env m)))
       end).
Proof.
  intros Hw Hnd. unfold saveConfiguration. rewrite Hw. cbn [fst snd].
  split; [reflexivity|].
  set (m1 := restart {| registry := registry m; env := env m;
                        disk := {| file := Some (stored (registry m)); writable := true |} |}).
  assert (Hf : file (disk m1) = Some (stored (registry m))) by reflexivity.
  destruct (loadConfiguration_file m1 _ Hf) as (Hps & Ha & Hfo & Hlb & _).
  split; [exact Ha|]. split; [exact Hfo|]. split; [exact Hlb|].
  intros k. rewrite Hps. now apply prop_spread.
Qed.

Lemma save_then_restart_witness :
  keys (providers
    (registry (snd (loadConfiguration (restart (snd (saveConfiguration scenario)))))))
    = ["anthropic"; "openai"; "zai"; "A"; "B"] /\
  activeProvider
    (registry (snd (loadConfiguration (restart (snd (saveConfiguration scenario))))))
    = "A".
Proof.
  split; [reflexivity|].
  destruct (save_then_restart scenario eq_refl NoDup_scenario) as (_ & H & _).
  exact H.
Defined.

Lemma prop_spread_delete_key {V} (x : string) (ps a : list (string * V)) :
  prop x (spread a (delete_key x ps)) = prop x a.
Proof.
  unfold spread, delete_key. revert a.
  induction ps as [|[k0 v0] ps IH]; intros a; cbn [List.filter fold_left fst snd];
    [reflexivity|].
  destruct (String.eqb_spec k0 x) as [->|Hne]; cbn [negb fold_left fst snd]; [apply IH|].
  rewrite IH, prop_assign. apply String.eqb_neq in Hne.
  rewrite String.eqb_sym in Hne. now rewrite Hne.
Qed.

(** X11.  Removing a built-in provider does not survive a restart: the
    entry is gone from the registry and from the file, and a manager
    started later loads it again with its default configuration. *)
Theorem removed_built_in_returns (m : Manager) (x : string) (p : ProviderConfig) :
  writable (disk m) = true ->
  prop x (providers (registry m)) = Some p ->
  In x built_in ->
  fst (removeProvider x m) = Returned tt /\
  prop x (providers (registry (snd (removeProvider x m)))) = None /\
  (exists d,
     prop x (providers (getDefaultRegistry (env m))) = Some d /\
     prop x (providers
       (registry (snd (loadConfiguration (restart (snd (removeProvider x m)))))))
     = Some d).
Proof.
  intros Hw Hp Hx.
  destruct (removeProvider_state x m p Hp) as (Hr & Ho & Hd & He).
  rewrite Hw in Ho. specialize (Hd Hw).
  assert (Hgone : prop x (providers (registry (snd (removeProvider x m)))) = None).
  { rewrite Hr, providers_remove_registry, prop_delete_key. now rewrite String.eqb_refl. }
  split; [exact Ho|]. split; [exact Hgone|].
  assert (Hdef : exists d, prop x (providers (getDefaultRegistry (env m))) = Some d).
  { destruct (prop x (providers (getDefaultRegistry (env m)))) as [d|] eqn:E; [eauto|].
    apply prop_None_keys in E. now rewrite keys_getDefaultRegistry in E. }
  destruct Hdef as [d Hdef]. exists d. split; [exact Hdef|].
  set (m1 := restart (snd (removeProvider x m))).
  assert (Hf : file (disk m1) = Some (stored (remove_registry x (registry m)))).
  { unfold m1, restart. simpl. now rewrite Hd. }
  destruct (loadConfiguration_file m1 _ Hf) as (Hps & _).
  rewrite Hps.
  change (default [] (loaded_providers (stored (remove_registry x (registry m)))))
    with (providers (remove_registry x (registry m))).
  rewrite providers_remove_registry.
  assert (Henv : env m1 = env m) by (unfold m1, restart; simpl; exact He).
  rewrite Henv.
  rewrite prop_spread_delete_key. exact Hdef.
Qed.

Lemma removed_built_in_returns_witness :
  prop "openai" (providers (registry (snd (removeProvider "openai" fresh_install)))) = None /\
  prop "openai" (providers
    (registry (snd (loadConfiguration (restart (snd (removeProvider "openai" fresh_install)))))))
  = prop "openai" (providers (registry fresh_install)).
Proof.
  destruct (removed_built_in_returns fresh_install "openai"
              (default_provider "OpenAI GPT" openai ""
                 "https://api.openai.com/v1/chat/completions" "gpt-4" 70
                 ["chat"; "reasoning"; "code"; "analysis"]) eq_refl eq_refl)
    as (_ & H1 & _); [right; now left|].
  split; [exact H1|reflexivity].
Defined.



(** *** [getNextProvider] *)




(** X14.  With load balancing on and at least one provider enabled,
    [getNextProvider] returns a provider for every draw in [0, 1) and
    every strategy, whatever [activeProvider] is; with none enabled it
    returns [null].  With load balancing off it is [getActiveProvider]. *)
Theorem getNextProvider_returns (random : Q) (m : Manager) :
  (0 <= random)%Q -> (random < 1)%Q ->
  (lb_enabled (loadBalancing (registry m)) = false ->
   getNextProvider random m = Returned (getActiveProvider m)) /\
  (lb_enabled (loadBalancing (registry m)) = true ->
   no_provider_enabled (providers (registry m)) ->
   getNextProvider random m = Returned None) /\
  (lb_enabled (loadBalancing (registry m)) = true ->
   forall k p, In (k, p) (providers (registry m)) -> enabled p = true ->
   exists q, getNextProvider random m = Returned (Some q)).
Proof.
  intros H0 H1. unfold getNextProvider. split; [|split].
  - now intros ->.
  - intros -> Hnone. cbn [negb].
    destruct (List.filter _ (providers (registry m))) as [|first rest] eqn:Ef;
      [reflexivity|].
    assert (Hin : In first (List.filter (fun e => enabled (snd e)) (providers (registry m))))
      by (rewrite Ef; now left).
    apply filter_In in Hin as [Hin Hen]. rewrite (Hnone _ Hin) in Hen. discriminate.
  - intros -> k p Hin Hen. cbn [negb].
    destruct (List.filter _ (providers (registry m))) as [|first rest] eqn:Ef.
    + assert (Hf : In (k, p) (List.filter (fun e => enabled (snd e))
                                (providers (registry m))))
        by (apply filter_In; auto).
      rewrite Ef in Hf. destruct Hf.
    + destruct (strategy (loadBalancing (registry m))).
      * set (n := length (first :: rest)).
        set (i := Qfloor (random * inject_Z (Z.of_nat n))).
        assert (Hn : (0 < inject_Z (Z.of_nat n))%Q).
        { change 0%Q with (inject_Z 0). rewrite <- Zlt_Qlt. unfold n. simpl. lia. }
        assert (Hlo : 0 <= i).
        { unfold i. change 0 with (Qfloor 0). apply Qfloor_resp_le. nra. }
        assert (Hhi : i < Z.of_nat n).
        { rewrite Zlt_Qlt. apply Qle_lt_trans with (random * inject_Z (Z.of_nat n))%Q.
          - apply Qfloor_le.
          - nra. }
        destruct (Z.ltb_spec i 0) as [Hneg|_]; [lia|].
        destruct (nth_error (first :: rest) (Z.to_nat i)) as [e|] eqn:En; [eauto|].
        apply nth_error_None in En. fold n in En. lia.
      * destruct (weighted_walk _ _ _); eauto.
      * destruct (sort_by_priority (first :: rest)) as [|e s] eqn:Es; [|eauto].
        pose proof (sort_by_priority_perm (first :: rest)) as Hperm. rewrite Es in Hperm.
        apply Permutation_sym, Permutation_nil in Hperm. discriminate.
Qed.

Lemma getNextProvider_returns_witness :
  getNextProvider (9 # 10) (balanced weighted None)
    = Returned (Some (scenario_provider "B" 80)) /\
  getActiveProvider (balanced weighted None) = None /\
  getNextProvider (9 # 10) scenario = Returned (getActiveProvider scenario).
Proof.
  assert (H0 : (0 <= 9 # 10)%Q) by (unfold Qle; simpl; lia).
  assert (H1 : (9 # 10 < 1)%Q) by (unfold Qlt; simpl; lia).
  destruct (getNextProvider_returns (9 # 10) scenario H0 H1) as (H & _).
  split; [reflexivity|]. split; [reflexivity|]. apply H. reflexivity.
Defined.

(** X15.  The [least-latency] strategy is the re-selection policy: it
    returns the enabled provider of highest priority, the first such in
    the order of the entries, whatever the draw and whatever
    [activeProvider]. *)
Theorem getNextProvider_least_latency (random : Q) (m : Manager) :
  lb_enabled (loadBalancing (registry m)) = true ->
  strategy (loadBalancing (registry m)) = least_latency ->
  (no_provider_enabled (providers (registry m)) /\
   getNextProvider random m = Returned None) \/
  (exists e, selected e (providers (registry m)) /\
             getNextProvider random m = Returned (Some (snd e))).
Proof.
  intros Hlb Hs. unfold getNextProvider. rewrite Hlb, Hs. cbn [negb].
  pose proof (enabledProviders_head (providers (registry m))) as H.
  unfold enabledProviders in H.
  destruct (List.filter _ (providers (registry m))) as [|first rest] eqn:Ef.
  - left. split; [exact H|reflexivity].
  - destruct (sort_by_priority (first :: rest)) as [|e s] eqn:Es.
    + pose proof (sort_by_priority_perm (first :: rest)) as Hperm. rewrite Es in Hperm.
      apply Permutation_sym, Permutation_nil in Hperm. discriminate.
    + right. exists e. split; [exact H|reflexivity].
Qed.

Lemma getNextProvider_least_latency_witness :
  getNextProvider 0 (balanced least_latency None)
    = Returned (Some (scenario_provider "A" 90)) /\
  (exists e, selected e (providers (registry (balanced least_latency None))) /\
             getNextProvider 0 (balanced least_latency None) = Returned (Some (snd e))).
Proof.
  split; [reflexivity|].
  destruct (getNextProvider_least_latency 0 (balanced least_latency None) eq_refl eq_refl)
    as [[_ H]|H]; [discriminate H|exact H].
Defined.


End RegistryFacts.

(** ** Facts about the manager and its objects *)

Module StoreFacts.

Import Store.

(** *** Reading is stable when the heap grows *)

Lemma view_manager_mono (h h' : gmap loc Object) this l :
  h ⊆ h' -> view_manager h this = Some l -> view_manager h' this = Some l.
Proof.
  unfold view_manager. intros Hsub H.
  destruct (h !! this) as [o|] eqn:E; [|discriminate].
  now rewrite (lookup_weaken _ _ _ _ E Hsub).
Qed.

Lemma view_object_mono (h h' : gmap loc Object) l o :
  h ⊆ h' -> view_object h l = Some o -> view_object h' l = Some o.
Proof.
  unfold view_object. intros Hsub H.
  destruct (h !! l) as [x|] eqn:E; [|discriminate].
  now rewrite (lookup_weaken _ _ _ _ E Hsub).
Qed.

Lemma view_provider_mono (h h' : gmap loc Object) l p :
  h ⊆ h' -> view_provider h l = Some p -> view_provider h' l = Some p.
Proof.
  unfold view_provider. intros Hsub H.
  destruct (h !! l) as [x|] eqn:E; [|discriminate].
  now rewrite (lookup_weaken _ _ _ _ E Hsub).
Qed.

Lemma view_entries_mono (h h' : gmap loc Object) es ps :
  h ⊆ h' -> view_entries h es = Some ps -> view_entries h' es = Some ps.
Proof.
  intros Hsub. revert ps. induction es as [|e es IH]; intros ps; simpl; [auto|].
  destruct (view_provider h (snd e)) as [p|] eqn:Ep; [|discriminate].
  destruct (view_entries h es) as [ps'|]; [|discriminate].
  intros [= <-]. now rewrite (view_provider_mono _ _ _ _ Hsub Ep), (IH ps').
Qed.

Lemma view_registry_mono (h h' : gmap loc Object) l r :
  h ⊆ h' -> view_registry h l = Some r -> view_registry h' l = Some r.
Proof.
  unfold view_registry. intros Hsub H.
  destruct (view_object h l) as [o|] eqn:Eo; [|discriminate].
  destruct (view_entries h (Registry.providers o)) as [ps|] eqn:Ee; [|discriminate].
  now rewrite (view_object_mono _ _ _ _ Hsub Eo), (view_entries_mono _ _ _ _ Hsub Ee).
Qed.

Lemma view_mono (h h' : gmap loc Object) this r : h ⊆ h' -> view h this = Some r -> view h' this = Some r.
Proof.
  unfold view. intros Hsub H.
  destruct (view_manager h this) as [l|] eqn:El; [|discriminate].
  rewrite (view_manager_mono _ _ _ _ Hsub El). now apply view_registry_mono with h.
Qed.

(** Writes to objects the old heap does not have keep it a part of the
    new one. *)
Lemma mutate_outside (h0 : gmap loc Object) ws (h : gmap loc Object) :
  h0 ⊆ h -> Forall (fun x => h0 !! fst x = None) ws -> h0 ⊆ mutate ws h.
Proof.
  intros Hsub Hws. revert h Hsub. induction Hws as [|x ws Hx _ IH]; intros h Hsub; [exact Hsub|].
  simpl. apply IH. now apply insert_subseteq_r.
Qed.

(** *** The methods *)

Lemma reading_Some {A} (f : gmap loc Object -> option A) w a :
  f (heap w) = Some a -> reading f w = (Returned a, w).
Proof. unfold reading. now intros ->. Qed.

Lemma alloc_fresh (w : World) : heap w !! fresh (dom (heap w)) = None.
Proof. apply not_elem_of_dom, is_fresh. Qed.

Lemma parse_entries_spec ps w :
  exists es w',
    parse_entries ps w = (Returned es, w') /\
    heap w ⊆ heap w' /\ disk w' = disk w /\
    view_entries (heap w') es = Some ps /\
    Forall (fun l => heap w !! l = None) (map snd es).
Proof.
  revert w. induction ps as [|[k p] ps IH]; intros w.
  - exists [], w. repeat split; auto.
  - cbn [parse_entries]. unfold bind at 1. unfold alloc at 1. cbn [fst snd].
    set (l := fresh (dom (heap w))).
    set (w1 := set_heap (<[l:=ProviderObject p]> (heap w)) w).
    assert (Hl : heap w !! l = None) by apply alloc_fresh.
    assert (Hsub1 : heap w ⊆ heap w1) by now apply insert_subseteq.
    destruct (IH w1) as (es & w' & Hrun & Hsub & Hdisk & Hview & Hnew).
    exists ((k, l) :: es), w'. unfold bind. rewrite Hrun. repeat split.
    + now transitivity (heap w1).
    + exact Hdisk.
    + simpl. rewrite Hview.
      assert (Hp : view_provider (heap w1) l = Some p).
      { unfold view_provider, w1. simpl. now rewrite lookup_insert_eq. }
      now rewrite (view_provider_mono _ _ _ _ Hsub Hp).
    + simpl. constructor; [exact Hl|].
      eapply Forall_impl; [exact Hnew|]. intros a Ha. cbn beta in *.
      destruct (heap w !! a) as [x|] eqn:E; [|reflexivity].
      pose proof (lookup_weaken _ _ _ _ E Hsub1) as E1. congruence.
Qed.

Lemma set_providers_back {P} (r : Registry.ProviderRegistry) (es : list (string * P)) :
  Registry.set_providers (Registry.providers r) (Registry.set_providers es r) = r.
Proof. now destruct r. Qed.

Lemma parse_spec r w :
  exists l w',
    parse r w = (Returned l, w') /\
    heap w ⊆ heap w' /\ disk w' = disk w /\
    view_registry (heap w') l = Some r /\
    Forall (fun x => heap w !! x = None) (registry_objects (heap w') l).
Proof.
  destruct (parse_entries_spec (Registry.providers r) w)
    as (es & w1 & Hrun & Hsub & Hdisk & Hview & Hnew).
  set (l := fresh (dom (heap w1))).
  set (o := RegistryObject (Registry.set_providers es r)).
  assert (Hl : heap w1 !! l = None) by apply alloc_fresh.
  assert (Hsub1 : heap w1 ⊆ <[l:=o]> (heap w1)) by now apply insert_subseteq.
  exists l, (set_heap (<[l:=o]> (heap w1)) w1).
  unfold parse, bind. rewrite Hrun. unfold alloc. fold l o. repeat split.
  - now transitivity (heap w1).
  - exact Hdisk.
  - unfold view_registry, view_object. simpl. rewrite lookup_insert_eq. simpl.
    rewrite (view_entries_mono _ _ _ _ Hsub1 Hview). now rewrite set_providers_back.
  - unfold registry_objects. simpl. rewrite lookup_insert_eq. simpl.
    constructor; [|exact Hnew].
    destruct (heap w !! l) as [x|] eqn:E; [|reflexivity].
    now rewrite (lookup_weaken _ _ _ _ E Hsub) in Hl.
Qed.

Lemma new_manager_spec e w :
  exists that registry w',
    new_manager e w = (Returned that, w') /\
    heap w ⊆ heap w' /\ disk w' = disk w /\
    heap w !! that = None /\
    view_manager (heap w') that = Some registry.
Proof.
  destruct (parse_spec (Registry.getDefaultRegistry e) w)
    as (registry & w1 & Hrun & Hsub & Hdisk & _ & _).
  set (that := fresh (dom (heap w1))).
  assert (Hthat : heap w1 !! that = None) by apply alloc_fresh.
  exists that, registry, (set_heap (<[that:=ManagerObject registry]> (heap w1)) w1).
  unfold new_manager, bind. rewrite Hrun. unfold alloc. fold that. repeat split.
  - transitivity (heap w1); [exact Hsub|now apply insert_subseteq].
  - exact Hdisk.
  - destruct (heap w !! that) as [x|] eqn:E; [|reflexivity].
    now rewrite (lookup_weaken _ _ _ _ E Hsub) in Hthat.
  - unfold view_manager. simpl. now rewrite lookup_insert_eq.
Qed.

(** A name is looked up in the entries as in their values. *)
Lemma prop_view_entries (h : gmap loc Object) es ps k :
  view_entries h es = Some ps ->
  match Registry.prop k es with
  | Some l => exists p, view_provider h l = Some p /\ Registry.prop k ps = Some p
  | None => Registry.prop k ps = None
  end.
Proof.
  revert ps. induction es as [|[k' l] es IH]; intros ps; simpl.
  - now intros [= <-].
  - destruct (view_provider h l) as [p|] eqn:Ep; [|discriminate].
    destruct (view_entries h es) as [ps'|]; [|discriminate].
    intros [= <-]. simpl. destruct (String.eqb k k'); [now exists p|now apply IH].
Qed.

(** On a registry that keeps the key invariant the first loop of
    [validateProviders] writes nothing. *)
Lemma for_each_validate_provider_settled w es ps :
  view_entries (heap w) es = Some ps ->
  (forall k p, In (k, p) ps -> Registry.enabled p = true -> Registry.apiKey p <> "") ->
  for_each validate_provider es w = (Returned tt, w).
Proof.
  revert ps. induction es as [|[k l] es IH]; intros ps; simpl; [reflexivity|].
  destruct (view_provider (heap w) l) as [p|] eqn:Ep; [|discriminate].
  destruct (view_entries (heap w) es) as [ps'|] eqn:Ee; [|discriminate].
  intros [= <-] Hkey.
  unfold bind at 1. unfold validate_provider, bind at 1. unfold get_provider.
  rewrite (reading_Some _ _ _ Ep). cbn [snd].
  assert (Hp : Registry.enabled p && falsy (Registry.apiKey p) = false).
  { destruct (Registry.enabled p) eqn:En; [|reflexivity]. simpl.
    apply String.eqb_neq. apply (Hkey k p); [now left|exact En]. }
  rewrite Hp. unfold ret at 1. apply (IH ps'); [reflexivity|].
  intros k0 p0 Hin. apply (Hkey k0). now right.
Qed.

(** Validation leaves a settled registry that keeps the key invariant as
    it is: not one object is written. *)
Lemma validateProviders_settled w this l r :
  view_manager (heap w) this = Some l ->
  view_registry (heap w) l = Some r ->
  Registry.key_invariant r -> Registry.active_settled r ->
  validateProviders this w = (Returned tt, w).
Proof.
  intros Hm Hr Hkey Hset. unfold view_registry in Hr.
  destruct (view_object (heap w) l) as [o|] eqn:Eo; [|discriminate].
  destruct (view_entries (heap w) (Registry.providers o)) as [ps|] eqn:Ee; [|discriminate].
  injection Hr as <-.
  unfold validateProviders. unfold bind at 1. unfold get_manager.
  rewrite (reading_Some _ _ _ Hm). unfold bind at 1. unfold get_registry.
  rewrite (reading_Some _ _ _ Eo). unfold bind at 1.
  rewrite (for_each_validate_provider_settled w _ ps Ee Hkey).
  pose proof (prop_view_entries _ _ _ (Registry.activeProvider o) Ee) as Hprop.
  assert (Hnone : Registry.no_provider_enabled ps -> Registry.enabledProviders ps = []).
  { intros Hno. pose proof (RegistryFacts.enabledProviders_head ps) as Hh.
    destruct (Registry.enabledProviders ps) as [|x s]; [reflexivity|].
    destruct Hh as [Hx (l1 & l2 & Heq & _)].
    rewrite (Hno x) in Hx; [discriminate|]. rewrite Heq. apply in_elt. }
  unfold Registry.active_settled in Hset. simpl in Hset.
  destruct (Registry.prop (Registry.activeProvider o) (Registry.providers o)) as [la|].
  - destruct Hprop as (pa & Ea & Hpa).
    unfold bind at 1. unfold bind at 1. unfold get_provider.
    rewrite (reading_Some _ _ _ Ea). unfold ret at 1.
    destruct (Registry.enabled pa) eqn:En; [reflexivity|]. cbn [negb].
    unfold bind. unfold read_entries. rewrite (reading_Some _ _ _ Ee).
    rewrite Hnone; [reflexivity|].
    destruct Hset as [(p & Hp & Hen)|Hno]; [|exact Hno]. congruence.
  - unfold bind at 1. unfold ret at 1.
    unfold bind. unfold read_entries. rewrite (reading_Some _ _ _ Ee).
    rewrite Hnone; [reflexivity|].
    destruct Hset as [(p & Hp & Hen)|Hno]; [|exact Hno]. congruence.
Qed.

(** *** [validateProviders] in place and on values

    The method that writes to the objects computes, on what the
    references stand for, the function [Registry.validate_registry]. *)

Lemma validated_cell_nil l o : validated_cell [] l o = o.
Proof. now destruct o. Qed.

Lemma for_each_validate_provider_spec es :
  forall w ps,
    view_entries (heap w) es = Some ps ->
    exists w',
      for_each validate_provider es w = (Returned tt, w') /\
      disk w' = disk w /\
      forall l, heap w' !! l = validated_cell es l <$> heap w !! l.
Proof.
  induction es as [|[k l1] es IH]; intros w ps Hview.
  - exists w. repeat split. intros l.
    destruct (heap w !! l); simpl; [now rewrite validated_cell_nil|reflexivity].
  - simpl in Hview.
    destruct (view_provider (heap w) l1) as [p1|] eqn:Ep; [|discriminate].
    destruct (view_entries (heap w) es) as [ps'|] eqn:Ee; [|discriminate].
    assert (Hl1 : heap w !! l1 = Some (ProviderObject p1)).
    { unfold view_provider in Ep. destruct (heap w !! l1) as [[]|]; congruence. }
    set (h1 := <[l1:=ProviderObject (Registry.validate_entry p1)]> (heap w)).
    assert (Hstep : validate_provider (k, l1) w = (Returned tt, set_heap h1 w)).
    { unfold validate_provider, bind, get_provider. rewrite (reading_Some _ _ _ Ep).
      cbn [snd]. unfold h1, Registry.validate_entry.
      destruct (Registry.enabled p1 && falsy (Registry.apiKey p1)); [reflexivity|].
      unfold ret. rewrite insert_id by exact Hl1. now destruct w. }
    assert (Hkeep : exists ps1, view_entries h1 es = Some ps1).
    { clear -Ee. revert ps' Ee. induction es as [|[k' l'] es IH]; intros ps' Ee.
      - now exists [].
      - simpl in *. destruct (view_provider (heap w) l') as [p'|] eqn:Ep'; [|discriminate].
        destruct (view_entries (heap w) es) as [ps''|]; [|discriminate].
        destruct (IH ps'' eq_refl) as [ps1 ->].
        unfold view_provider in *. unfold h1.
        destruct (decide (l1 = l')) as [->|Hne].
        + rewrite lookup_insert_eq. eauto.
        + rewrite lookup_insert_ne by exact Hne.
          destruct (heap w !! l') as [[]|]; try discriminate. eauto. }
    destruct Hkeep as [ps1 Hps1].
    destruct (IH (set_heap h1 w) ps1 Hps1) as (w' & Hrun & Hdisk & Hcells).
    exists w'. cbn [for_each]. unfold bind. rewrite Hstep, Hrun. repeat split; [exact Hdisk|].
    intros l. rewrite Hcells. simpl. unfold h1.
    destruct (decide (l1 = l)) as [<-|Hne].
    + rewrite lookup_insert_eq, Hl1. simpl.
      rewrite (decide_True (P := l1 ∈ l1 :: map snd es))
        by (apply elem_of_cons; now left).
      case_decide; [now rewrite RegistryFacts.validate_entry_idem|reflexivity].
    + rewrite lookup_insert_ne by exact Hne.
      destruct (heap w !! l) as [[| |p]|]; simpl; try reflexivity.
      f_equal. destruct (decide (l ∈ map snd es)) as [Hin|Hout].
      * rewrite (decide_True (P := l ∈ l1 :: map snd es))
          by (apply elem_of_cons; now right). reflexivity.
      * rewrite (decide_False (P := l ∈ l1 :: map snd es)); [reflexivity|].
        intros [Heq|Hin]%elem_of_cons; [congruence|contradiction].
Qed.

Lemma view_entries_validated (h h' : gmap loc Object) es0 es ps :
  (forall l, h' !! l = validated_cell es0 l <$> h !! l) ->
  (forall e, In e es -> snd e ∈ map snd es0) ->
  view_entries h es = Some ps ->
  view_entries h' es
    = Some (map (fun e => (fst e, Registry.validate_entry (snd e))) ps).
Proof.
  intros Hcells. revert ps. induction es as [|[k l] es IH]; intros ps Hin; simpl.
  - now intros [= <-].
  - destruct (view_provider h l) as [p|] eqn:Ep; [|discriminate].
    destruct (view_entries h es) as [ps'|]; [|discriminate].
    intros [= <-]. rewrite (IH ps') by (auto; intros e He; apply Hin; now right).
    unfold view_provider in *. rewrite Hcells.
    destruct (h !! l) as [[| |p0]|]; try discriminate. injection Ep as ->. simpl.
    rewrite decide_True; [reflexivity|]. apply (Hin (k, l)). now left.
Qed.

(** Writing a registry object does not touch the providers. *)
Lemma view_entries_insert_registry (h : gmap loc Object) l o o' es :
  view_object h l = Some o ->
  view_entries (<[l:=RegistryObject o']> h) es = view_entries h es.
Proof.
  intros Ho. induction es as [|[k l'] es IH]; simpl; [reflexivity|].
  rewrite IH. unfold view_provider, view_object in *.
  destruct (decide (l = l')) as [<-|Hne].
  - rewrite lookup_insert_eq. destruct (h !! l) as [[]|]; congruence.
  - now rewrite lookup_insert_ne.
Qed.

Lemma validateProviders_refines w this l r :
  view_manager (heap w) this = Some l ->
  view_registry (heap w) l = Some r ->
  exists w',
    validateProviders this w = (Returned tt, w') /\
    disk w' = disk w /\
    view_manager (heap w') this = Some l /\
    view_registry (heap w') l = Some (Registry.validate_registry r).
Proof.
  intros Hm Hr. unfold view_registry in Hr.
  destruct (view_object (heap w) l) as [o|] eqn:Eo; [|discriminate].
  destruct (view_entries (heap w) (Registry.providers o)) as [ps|] eqn:Ee; [|discriminate].
  injection Hr as <-.
  destruct (for_each_validate_provider_spec _ _ _ Ee) as (w1 & Hloop & Hdisk & Hcells).
  set (ps1 := map (fun e => (fst e, Registry.validate_entry (snd e))) ps).
  assert (Ee1 : view_entries (heap w1) (Registry.providers o) = Some ps1).
  { apply view_entries_validated with (heap w) (Registry.providers o); auto.
    intros e He. apply list_elem_of_In, in_map, He. }
  assert (Eo1 : view_object (heap w1) l = Some o).
  { unfold view_object in *. rewrite Hcells.
    destruct (heap w !! l) as [[]|]; try discriminate. exact Eo. }
  assert (Hm1 : view_manager (heap w1) this = Some l).
  { unfold view_manager in *. rewrite Hcells.
    destruct (heap w !! this) as [[]|]; try discriminate. exact Hm. }
  unfold validateProviders. unfold bind at 1. unfold get_manager.
  rewrite (reading_Some _ _ _ Hm). unfold bind at 1. unfold get_registry.
  rewrite (reading_Some _ _ _ Eo). unfold bind at 1. rewrite Hloop.
  unfold Registry.validate_registry, Registry.repair_active. simpl. fold ps1.
  pose proof (prop_view_entries _ _ _ (Registry.activeProvider o) Ee1) as Hprop.
  assert (Hpick : forall w2 : World, w2 = w1 ->
    exists w',
      (ps <- read_entries (Registry.providers o) ;;
       match Registry.enabledProviders ps with
       | [] => ret tt
       | e :: _ => write l (RegistryObject (Registry.set_activeProvider (fst e) o))
       end)%js w2 = (Returned tt, w') /\
      disk w' = disk w /\ view_manager (heap w') this = Some l /\
      view_registry (heap w') l =
        Some match Registry.enabledProviders ps1 with
             | [] => Registry.set_providers ps1 o
             | e :: _ =>
                 Registry.set_activeProvider (fst e) (Registry.set_providers ps1 o)
             end).
  { intros w2 ->. unfold bind, read_entries. rewrite (reading_Some _ _ _ Ee1).
    destruct (Registry.enabledProviders ps1) as [|e s].
    - exists w1. repeat split; auto. unfold view_registry. now rewrite Eo1, Ee1.
    - eexists. split; [reflexivity|]. simpl. repeat split; [exact Hdisk| |].
      + unfold view_manager, view_object in *.
        destruct (decide (l = this)) as [->|Hne].
        * destruct (heap w1 !! this) as [[]|]; congruence.
        * now rewrite lookup_insert_ne.
      + unfold view_registry. unfold view_object at 1. rewrite lookup_insert_eq.
        cbn [Registry.providers Registry.set_activeProvider].
        rewrite (view_entries_insert_registry _ _ o) by exact Eo1.
        now rewrite Ee1. }
  destruct (Registry.prop (Registry.activeProvider o) (Registry.providers o)) as [la|].
  - destruct Hprop as (pa & Ea & ->).
    unfold bind at 1. unfold bind at 1. unfold get_provider.
    rewrite (reading_Some _ _ _ Ea). unfold ret at 1.
    destruct (Registry.enabled pa); cbn [negb].
    + exists w1. repeat split; auto. unfold view_registry. now rewrite Eo1, Ee1.
    + now apply Hpick.
  - rewrite Hprop. unfold bind at 1. unfold ret at 1. now apply Hpick.
Qed.

(** Importing a settled registry that keeps the key invariant: the
    manager now refers to the very object it was given, nothing else is
    written, and the registry goes to the file. *)
Lemma importConfiguration_settled w that old copy r :
  view_manager (heap w) that = Some old ->
  view_registry (<[that:=ManagerObject copy]> (heap w)) copy = Some r ->
  Registry.key_invariant r -> Registry.active_settled r ->
  importConfiguration that copy w =
    (save_outcome (disk w),
     {| heap := <[that:=ManagerObject copy]> (heap w); disk := saved r (disk w) |}).
Proof.
  intros Hm Hr Hkey Hset.
  unfold importConfiguration. unfold bind at 1. unfold get_manager at 1.
  rewrite (reading_Some _ _ _ Hm). unfold bind at 1. unfold write, modify.
  set (w' := set_heap (<[that:=ManagerObject copy]> (heap w)) w).
  assert (Hm' : view_manager (heap w') that = Some copy).
  { unfold view_manager, w'. simpl. now rewrite lookup_insert_eq. }
  unfold bind at 1.
  rewrite (validateProviders_settled w' that copy r Hm' Hr Hkey Hset).
  unfold saveConfiguration, bind. unfold get_manager, stringify.
  rewrite (reading_Some _ _ _ Hm'), (reading_Some _ w' _ Hr).
  unfold save_outcome, saved, w'. simpl.
  destruct (Registry.writable (disk w)); reflexivity.
Qed.

(** In general the manager ends with the validated registry, which is
    also what goes to the file. *)
Lemma importConfiguration_validates w that old copy r :
  view_manager (heap w) that = Some old ->
  view_registry (<[that:=ManagerObject copy]> (heap w)) copy = Some r ->
  exists w',
    importConfiguration that copy w = (save_outcome (disk w), w') /\
    disk w' = saved (Registry.validate_registry r) (disk w) /\
    view (heap w') that = Some (Registry.validate_registry r).
Proof.
  intros Hm Hr.
  set (w1 := set_heap (<[that:=ManagerObject copy]> (heap w)) w).
  assert (Hm1 : view_manager (heap w1) that = Some copy).
  { unfold view_manager, w1. simpl. now rewrite lookup_insert_eq. }
  destruct (validateProviders_refines w1 that copy r Hm1 Hr)
    as (w2 & Hrun & Hdisk & Hm2 & Hr2).
  exists {| heap := heap w2; disk := saved (Registry.validate_registry r) (disk w) |}.
  split; [|split; [reflexivity|]].
  - unfold importConfiguration. unfold bind at 1. unfold get_manager at 1.
    rewrite (reading_Some _ _ _ Hm). unfold bind at 1. unfold write, modify.
    fold w1. unfold bind at 1. rewrite Hrun.
    unfold saveConfiguration, bind. unfold get_manager, stringify.
    rewrite (reading_Some _ _ _ Hm2), (reading_Some _ w2 _ Hr2).
    unfold save_outcome, saved. destruct w2 as [h2 d2]. simpl in Hdisk. subst d2. simpl.
    destruct (Registry.writable (disk w)); reflexivity.
  - unfold view. simpl. now rewrite Hm2.
Qed.

(** C9 (counterexample).  The registry [B_enabled_later] keeps both
    invariants: its active name is empty, and its one enabled provider
    has a key.  Exported and imported into a new manager it comes out
    with [B] active: the validation that [importConfiguration] runs
    switches an empty active name to the best enabled provider. *)
Lemma round_trip_changes_activeProvider :
  Registry.key_invariant B_enabled_later /\
  Registry.active_invariant B_enabled_later /\
  Registry.activeProvider B_enabled_later = "" /\
  (exists this that w',
     fst (world_of B_enabled_later) = Returned this /\
     view (heap (snd (world_of B_enabled_later))) this = Some B_enabled_later /\
     round_trip (Registry.mkEnv "" "" "") this (snd (world_of B_enabled_later))
       = (Returned that, w') /\
     view (heap w') that = Some (Registry.set_activeProvider "B" B_enabled_later) /\
     view (heap w') that <> Some B_enabled_later).
Proof.
  split; [|split; [|split]].
  - intros k p Hin Hen. vm_compute in Hin.
    destruct Hin as [[= <- <-]|[[= <- <-]|[]]]; [discriminate Hen|discriminate].
  - intros Hne. exfalso. apply Hne. reflexivity.
  - reflexivity.
  - eexists _, _, _. split; [vm_compute; reflexivity|].
    split; [vm_compute; reflexivity|].
    split; [vm_compute; reflexivity|].
    split; [vm_compute; reflexivity|].
    vm_compute. discriminate.
Qed.

(** C9 (amended).  Let a manager hold a registry [r] that keeps the two
    invariants and whose active name is settled (it names an enabled
    provider, or no provider is enabled).  Then [exportConfiguration]
    returns a new registry object equal to [r] field for field, made of
    new objects only; [importConfiguration] of it into a new manager
    leaves that manager with a registry equal to [r] (and writes it to
    the file when the file can be written), the first manager still
    holding [r]; and whatever is written later to the objects of the
    copy, the first manager still holds [r]. *)
Theorem export_import_round_trip
    (w : World) (this : loc) (r : Registry.ProviderRegistry) (e : Registry.Env) :
  view (heap w) this = Some r ->
  Registry.key_invariant r -> Registry.active_invariant r -> Registry.active_settled r ->
  exists copy w1 that w2 w3,
    exportConfiguration this w = (Returned copy, w1) /\
    new_manager e w1 = (Returned that, w2) /\
    importConfiguration that copy w2 = (save_outcome (disk w), w3) /\
    disk w3 = saved r (disk w) /\
    view (heap w3) that = Some r /\
    view (heap w3) this = Some r /\
    view_registry (heap w1) copy = Some r /\
    Forall (fun l => heap w !! l = None) (registry_objects (heap w1) copy) /\
    (forall ws,
       Forall (fun x => In (fst x) (registry_objects (heap w1) copy)) ws ->
       view (mutate ws (heap w1)) this = Some r).
Proof.
  intros Hview Hkey _ Hset.
  assert (Hview' := Hview). unfold view in Hview'.
  destruct (view_manager (heap w) this) as [l0|] eqn:Hm; [|discriminate].
  destruct (parse_spec r w) as (copy & w1 & Hparse & Hsub1 & Hdisk1 & Hcopy & Hnew).
  destruct (new_manager_spec e w1) as (that & old & w2 & Hmk & Hsub2 & Hdisk2 & Hthat & Hold).
  assert (Hsub3 : heap w1 ⊆ <[that:=ManagerObject copy]> (heap w2))
    by now apply insert_subseteq_r.
  assert (Hr3 : view_registry (<[that:=ManagerObject copy]> (heap w2)) copy = Some r)
    by now apply view_registry_mono with (heap w1).
  exists copy, w1, that, w2,
    {| heap := <[that:=ManagerObject copy]> (heap w2); disk := saved r (disk w2) |}.
  assert (Hd : disk w2 = disk w) by congruence.
  repeat split.
  - unfold exportConfiguration, bind. unfold get_manager, stringify.
    now rewrite (reading_Some _ _ _ Hm), (reading_Some _ w _ Hview').
  - exact Hmk.
  - rewrite <- Hd. now apply importConfiguration_settled with old.
  - simpl. now rewrite Hd.
  - unfold view, view_manager. simpl. now rewrite lookup_insert_eq.
  - apply view_mono with (heap w); [|exact Hview]. simpl. now transitivity (heap w1).
  - exact Hcopy.
  - exact Hnew.
  - intros ws Hws. apply view_mono with (heap w); [|exact Hview].
    apply mutate_outside; [exact Hsub1|].
    eapply Forall_impl; [exact Hws|]. intros x Hx. cbn beta in Hx.
    apply list_elem_of_In in Hx.
    apply (proj1 (Forall_forall _ _) Hnew _ Hx).
Qed.

(** The registry of the scenario, exported and imported into a new
    manager. *)
Lemma export_import_round_trip_witness :
  exists this that w',
    fst (world_of (Registry.registry Registry.scenario)) = Returned this /\
    round_trip (Registry.mkEnv "" "" "") this (snd (world_of (Registry.registry Registry.scenario)))
      = (Returned that, w') /\
    view (heap w') that = Some (Registry.registry Registry.scenario) /\
    view (heap w') this = Some (Registry.registry Registry.scenario).
Proof.
  set (r := Registry.registry Registry.scenario).
  assert (Hthis : fst (world_of r) = Returned 4%positive) by (vm_compute; reflexivity).
  assert (Hview : view (heap (snd (world_of r))) 4%positive = Some r)
    by (vm_compute; reflexivity).
  assert (Hkey : Registry.key_invariant r).
  { intros k p Hin Hen. vm_compute in Hin.
    destruct Hin as [[= <- <-]|[[= <- <-]|[]]]; discriminate. }
  assert (Hact : Registry.active_invariant r).
  { intros _. exists (Registry.scenario_provider "A" 90). split; reflexivity. }
  assert (Hset : Registry.active_settled r).
  { left. exists (Registry.scenario_provider "A" 90). split; reflexivity. }
  destruct (export_import_round_trip (snd (world_of r)) 4%positive r
              (Registry.mkEnv "" "" "") Hview Hkey Hact Hset)
    as (copy & w1 & that & w2 & w3 & Hexp & Hnew & Himp & _ & Hthat & Hthis' & _).
  exists 4%positive, that, w3. split; [exact Hthis|]. split; [|split; assumption].
  unfold round_trip, bind. now rewrite Hexp, Hnew, Himp.
Defined.

(** *** Validation and import through references; export of any registry *)






(** X19.  [exportConfiguration] on a manager that holds a registry,
    also a registry that breaks the invariants: it returns a reference
    to a registry equal to the manager's, made of objects that did not
    exist before; no existing object and no file is written, and nothing
    is validated. *)
Theorem exportConfiguration_snapshot
    (w : World) (this : loc) (r : Registry.ProviderRegistry) :
  view (heap w) this = Some r ->
  exists copy w',
    exportConfiguration this w = (Returned copy, w') /\
    view_registry (heap w') copy = Some r /\
    Forall (fun l => heap w !! l = None) (registry_objects (heap w') copy) /\
    heap w ⊆ heap w' /\ disk w' = disk w /\
    view (heap w') this = Some r.
Proof.
  intros Hview. assert (Hview' := Hview). unfold view in Hview'.
  destruct (view_manager (heap w) this) as [l0|] eqn:Hm; [|discriminate].
  destruct (parse_spec r w) as (copy & w1 & Hparse & Hsub1 & Hdisk1 & Hcopy & Hnew).
  exists copy, w1. repeat split; auto.
  - unfold exportConfiguration, bind. unfold get_manager, stringify.
    now rewrite (reading_Some _ _ _ Hm), (reading_Some _ w _ Hview').
  - now apply view_mono with (heap w).
Qed.

(** The registry without an active name is exported as it is, with no
    active name. *)
Lemma exportConfiguration_snapshot_witness :
  exists copy w',
    exportConfiguration 4%positive (snd (world_of B_enabled_later)) = (Returned copy, w') /\
    view_registry (heap w') copy = Some B_enabled_later /\
    view (heap w') 4%positive = Some B_enabled_later.
Proof.
  destruct (exportConfiguration_snapshot (snd (world_of B_enabled_later)) 4%positive
              B_enabled_later) as (copy & w' & Hrun & Hcopy & _ & _ & _ & Hthis);
    [vm_compute; reflexivity|].
  now exists copy, w'.
Defined.

End StoreFacts.

(** ** Facts about the client *)

Module ClientFacts.

Import Client.

(** *** [sendMessage] without a key *)

(** C5.  With [apiKey = ""], [sendMessage] throws the authentication
    error right after its debug line: the circuit breaker is not entered,
    [fetch] is not called, nothing is emitted, and the answers the network
    holds are untouched. *)
Theorem sendMessage_requires_apiKey
    (execute : forall A, M World JsError A -> M World JsError A)
    (config : ZaiAPIConfig) (msgs : list ZaiMessage) (options : ZaiRequest) (w : World) :
  apiKey config = "" ->
  sendMessage execute config msgs options w =
    (Thrown (mkAPIError ClaudeAuthenticationError "Z.ai API key is required"),
     snd (log debug "Sending message to Z.ai API" "" (E := APIError) w)) /\
  fetched (snd (sendMessage execute config msgs options w)) = fetched w /\
  network (snd (sendMessage execute config msgs options w)) = network w /\
  emitted (snd (sendMessage execute config msgs options w)) = emitted w.
Proof.
  intros Hkey.
  assert (H : sendMessage execute config msgs options w =
    (Thrown (mkAPIError ClaudeAuthenticationError "Z.ai API key is required"),
     snd (log debug "Sending message to Z.ai API" "" (E := APIError) w))).
  { unfold sendMessage, bind. simpl. rewrite Hkey. reflexivity. }
  rewrite H. repeat split.
Qed.

(** With a closed circuit and an answer waiting on the network: no
    request without a key, one request with a key. *)
Lemma sendMessage_requires_apiKey_witness :
  fst (sendMessage closed_circuit (sample_config "") hello no_options (answer completion))
    = Thrown (mkAPIError ClaudeAuthenticationError "Z.ai API key is required") /\
  fetched (snd (sendMessage closed_circuit (sample_config "") hello no_options (answer completion)))
    = [] /\
  fetched (snd (sendMessage closed_circuit (sample_config "k") hello no_options (answer completion)))
    = [http (sample_config "k") (base_request (sample_config "k") hello false)].
Proof.
  destruct (sendMessage_requires_apiKey closed_circuit (sample_config "") hello no_options
              (answer completion) eq_refl) as (H1 & H2 & _).
  split; [now rewrite H1|]. split; [exact H2|reflexivity].
Defined.

(** *** [handleAPIError] *)

(** C6 (counterexample).  The error of an HTTP 429 response, with ["429"]
    in its message, is classified as an authentication error when the
    response text happens to contain ["401"]. *)
Lemma handleAPIError_429_as_authentication :
  message too_many_requests = "HTTP 429: Too Many Requests (request 14015)" /\
  includes "429" (message too_many_requests) = true /\
  kind (handleAPIError too_many_requests) = ClaudeAuthenticationError /\
  kind (handleAPIError too_many_requests) <> ClaudeRateLimitError.
Proof. repeat split; try reflexivity. vm_compute. discriminate. Qed.

(** C6 (amended).  The classification tests in a fixed order and the
    first test that succeeds decides: an [AbortError] is a timeout; any
    other error whose message contains ["401"] or ["unauthorized"] is an
    authentication error; any other error whose message contains neither
    but contains ["429"] or ["rate limit"] is a rate-limit error. *)
Theorem handleAPIError_first_match (e : JsError) :
  (name e = "AbortError" -> kind (handleAPIError e) = ClaudeTimeoutError) /\
  (name e <> "AbortError" ->
   includes "401" (message e) || includes "unauthorized" (message e) = true ->
   kind (handleAPIError e) = ClaudeAuthenticationError) /\
  (name e <> "AbortError" ->
   includes "401" (message e) || includes "unauthorized" (message e) = false ->
   includes "429" (message e) || includes "rate limit" (message e) = true ->
   kind (handleAPIError e) = ClaudeRateLimitError).
Proof.
  unfold handleAPIError, getErrorMessage. repeat split.
  - intros ->. reflexivity.
  - intros Hn H. apply String.eqb_neq in Hn. now rewrite Hn, H.
  - intros Hn H1 H2. apply String.eqb_neq in Hn. now rewrite Hn, H1, H2.
Qed.

(** An aborted request, an HTTP 401 and an HTTP 429. *)
Lemma handleAPIError_first_match_witness :
  kind (handleAPIError aborted) = ClaudeTimeoutError /\
  kind (handleAPIError unauthorized) = ClaudeAuthenticationError /\
  kind (handleAPIError rate_limited) = ClaudeRateLimitError.
Proof.
  split; [|split].
  - apply (handleAPIError_first_match aborted). reflexivity.
  - apply (handleAPIError_first_match unauthorized); [discriminate|reflexivity].
  - apply (handleAPIError_first_match rate_limited); [discriminate|reflexivity..].
Defined.

(** *** [getConfig] *)

(** C7 (counterexample).  The key ["*"] is a substring of the mask that
    replaces it, and a key that is also part of the URL is returned with
    the URL. *)
Lemma getConfig_contains_key :
  contains "*" (getConfig (sample_config "*")) = true /\
  contains "sk-1"
    (getConfig
       (with_apiKey "sk-1"
          {| apiKey := tt; apiUrl := Some "https://api.z.ai/v1?key=sk-1"; model := None;
             temperature := None; maxTokens := None; topP := None; systemPrompt := None;
             timeout := None; retryAttempts := None; retryDelay := None;
             enableHealthCheck := None; healthCheckInterval := None;
             circuitBreakerThreshold := None; circuitBreakerTimeout := None;
             circuitBreakerResetTimeout := None; retryJitter := None |})) = true.
Proof. split; reflexivity. Qed.

(** C7 (amended).  For a non-empty key, [getConfig] returns the
    configuration with [apiKey] replaced by the fixed mask and every other
    field as configured, so its result is the same for any two non-empty
    keys; the key is not a substring of the output when it is a substring
    neither of the mask nor of the other string fields ([apiUrl], [model],
    [systemPrompt]). *)
Theorem getConfig_masks_apiKey (config : ZaiAPIConfig) :
  apiKey config <> "" ->
  apiKey (getConfig config) = Some mask /\
  with_apiKey tt (getConfig config) = with_apiKey tt config /\
  (forall key', key' <> "" -> getConfig (with_apiKey key' config) = getConfig config) /\
  (includes (apiKey config) mask = false ->
   (forall s, In (Some s) [apiUrl config; model config; systemPrompt config] ->
              includes (apiKey config) s = false) ->
   contains (apiKey config) (getConfig config) = false).
Proof.
  intros Hkey. apply String.eqb_neq in Hkey.
  unfold getConfig, falsy. rewrite Hkey. repeat split.
  - intros key' Hkey'. apply String.eqb_neq in Hkey'. simpl. now rewrite Hkey'.
  - intros Hmask Hother. unfold contains.
    apply not_true_iff_false. intros H.
    apply existsb_exists in H as [s [Hin Hs]].
    apply list_elem_of_In, list_elem_of_omap in Hin as [o [Ho Heq]].
    unfold id in Heq. subst o. change (Some s ∈ Some mask ::
      [apiUrl config; model config; systemPrompt config]) in Ho.
    apply elem_of_cons in Ho as [[= ->]|Ho].
    + congruence.
    + apply list_elem_of_In in Ho. rewrite (Hother s Ho) in Hs. discriminate.
Qed.

(** A key that occurs nowhere else in the configuration. *)
Lemma getConfig_masks_apiKey_witness :
  apiKey (getConfig (sample_config "zai-secret-1")) = Some "****...****" /\
  getConfig (sample_config "another-key") = getConfig (sample_config "zai-secret-1") /\
  contains "zai-secret-1" (getConfig (sample_config "zai-secret-1")) = false.
Proof.
  destruct (getConfig_masks_apiKey (sample_config "zai-secret-1")) as (H1 & _ & H3 & H4);
    [discriminate|].
  split; [exact H1|]. split.
  - apply (H3 "another-key"). discriminate.
  - apply H4; [reflexivity|].
    intros s [H|[H|[H|[]]]]; inversion H; reflexivity.
Defined.

(** *** The streaming loop *)

Section StreamingFacts.

Variable JSON_parse : string -> option JsonValue.
Variable onChunk : JsonValue -> M World JsError unit.

Local Abbreviation lines_loop := (process_lines JSON_parse onChunk).
Local Abbreviation reads_loop := (read_loop JSON_parse onChunk).
Local Abbreviation data_step := (handle_data JSON_parse onChunk).

Lemma handle_data_returns data w : fst (data_step data w) = Returned tt.
Proof.
  unfold handle_data, try_catch.
  destruct (match JSON_parse data with
            | Some parsed => (deliver parsed ;;; onChunk parsed)%js
            | None => throw syntax_error
            end w) as [[[]|e] w']; reflexivity.
Qed.

Lemma process_lines_cons line rest w :
  lines_loop (line :: rest) w =
  if startsWith "data: " line then
    if String.eqb (slice 6 line) "[DONE]" then (Returned true, w)
    else lines_loop rest (snd (data_step (slice 6 line) w))
  else lines_loop rest w.
Proof.
  cbn [process_lines]. destruct (startsWith "data: " line); [|reflexivity].
  destruct (String.eqb (slice 6 line) "[DONE]"); [reflexivity|].
  unfold bind.
  pose proof (handle_data_returns (slice 6 line) w) as H.
  destruct (data_step (slice 6 line) w) as [[[]|e] w']; [reflexivity|discriminate].
Qed.

(** The loop over the lines never throws: what a line throws is caught
    and logged. *)
Lemma process_lines_returns lines w :
  exists returned, fst (lines_loop lines w) = Returned returned.
Proof.
  revert w. induction lines as [|line rest IH]; intros w.
  - now exists false.
  - rewrite process_lines_cons.
    destruct (startsWith "data: " line); [|apply IH].
    destruct (String.eqb (slice 6 line) "[DONE]"); [now exists true|apply IH].
Qed.

Lemma process_lines_app l1 l2 w :
  lines_loop (l1 ++ l2) w =
  match lines_loop l1 w with
  | (Returned false, w') => lines_loop l2 w'
  | r => r
  end.
Proof.
  revert w. induction l1 as [|line rest IH]; intros w; [reflexivity|].
  rewrite <- app_comm_cons, !process_lines_cons.
  destruct (startsWith "data: " line); [|apply IH].
  destruct (String.eqb (slice 6 line) "[DONE]"); [reflexivity|apply IH].
Qed.

Lemma read_loop_app b1 b2 w :
  reads_loop (b1 ++ b2) w =
  match reads_loop b1 w with
  | (Returned false, w') => reads_loop b2 w'
  | r => r
  end.
Proof.
  revert w. induction b1 as [|[value|e] more IH]; intros w; [reflexivity| |reflexivity].
  rewrite <- app_comm_cons. cbn [read_loop]. unfold bind.
  destruct (lines_loop (split_lines value) w) as [[[]|e] w']; [reflexivity|apply IH|reflexivity].
Qed.

(** The sentinel line leaves the function at once. *)
Lemma process_lines_DONE rest w : lines_loop (DONE :: rest) w = (Returned true, w).
Proof. now rewrite process_lines_cons. Qed.

Lemma read_loop_DONE value pre post more w :
  split_lines value = pre ++ DONE :: post ->
  reads_loop (Chunk value :: more) w = (Returned true, snd (lines_loop pre w)).
Proof.
  intros Hsplit. cbn [read_loop]. unfold bind.
  rewrite Hsplit, process_lines_app.
  destruct (process_lines_returns pre w) as [b Hb].
  destruct (lines_loop pre w) as [[[]|e] w']; cbn [fst snd] in *;
    [reflexivity|now rewrite process_lines_DONE|discriminate].
Qed.

(** [makeStreamingRequest] once [fetch] has resolved with a 2xx response
    that has a body: the lock is taken, the chunks are read, the lock is
    released whatever the loop did. *)
Lemma makeStreamingRequest_resolved config request w r rest chunks :
  network w = Resolved r :: rest -> ok r = true -> body r = Some chunks ->
  makeStreamingRequest JSON_parse onChunk config request w =
  let '(o, w') := reads_loop chunks (set_lock true (snd (fetch (http config request) w))) in
  (match o with Returned _ => Returned tt | Thrown e => Thrown e end, set_lock false w').
Proof.
  intros Hnet Hok Hbody. unfold makeStreamingRequest, bind, fetch. rewrite Hnet.
  rewrite Hok. cbn [negb]. rewrite Hbody. unfold modify, try_finally, bind. simpl.
  destruct (reads_loop chunks _) as [[b|e] w']; reflexivity.
Qed.

(** C8 (amended).  (1) A line equal to [data: [DONE]] ends the loop over
    the lines of a read with the world as it was: no call of [onChunk],
    no log entry, the lines after it not looked at.  (2) In a stream,
    when the sentinel line lies whole within one read, the reading stops
    at that read: the world is the one left by the lines before it, later
    reads are not made, nothing is thrown.  (3) The whole call then
    returns normally, with the reader's lock released.  (4) A [data: ]
    line whose payload [JSON.parse] rejects adds one warning to the log,
    calls [onChunk] for nothing, and the loop goes on with the next
    line. *)
Theorem streaming_DONE_and_malformed :
  (forall rest w, lines_loop (DONE :: rest) w = (Returned true, w)) /\
  (forall before value pre post more w w1,
     split_lines value = pre ++ DONE :: post ->
     reads_loop before w = (Returned false, w1) ->
     reads_loop (before ++ Chunk value :: more) w
       = (Returned true, snd (lines_loop pre w1))) /\
  (forall config request w r rest before value pre post more w1,
     network w = Resolved r :: rest -> ok r = true ->
     body r = Some (before ++ Chunk value :: more) ->
     split_lines value = pre ++ DONE :: post ->
     reads_loop before (set_lock true (snd (fetch (http config request) w)))
       = (Returned false, w1) ->
     makeStreamingRequest JSON_parse onChunk config request w
       = (Returned tt, set_lock false (snd (lines_loop pre w1)))) /\
  (forall data rest w,
     JSON_parse data = None -> data <> "[DONE]" ->
     lines_loop (("data: " ++ data)%string :: rest) w
       = lines_loop rest
           (snd (log warn "Failed to parse streaming chunk" data (E := JsError) w)) /\
     delivered (snd (log warn "Failed to parse streaming chunk" data (E := JsError) w))
       = delivered w).
Proof.
  split; [exact process_lines_DONE|]. split; [|split].
  - intros before value pre post more w w1 Hsplit Hbefore.
    rewrite read_loop_app, Hbefore. now apply read_loop_DONE with (post := post).
  - intros config request w r rest before value pre post more w1 Hnet Hok Hbody Hsplit Hbefore.
    rewrite (makeStreamingRequest_resolved _ _ _ _ _ _ Hnet Hok Hbody).
    rewrite read_loop_app, Hbefore.
    now rewrite (read_loop_DONE _ _ _ more w1 Hsplit).
  - intros data rest w Hparse Hdone. split; [|reflexivity].
    rewrite process_lines_cons.
    change (startsWith "data: " ("data: " ++ data)%string) with (String.prefix "" data).
    change (slice 6 ("data: " ++ data)%string) with data.
    assert (Hp : String.prefix "" data = true) by now destruct data.
    rewrite Hp. apply String.eqb_neq in Hdone. rewrite Hdone.
    unfold handle_data, try_catch. now rewrite Hparse.
Qed.

End StreamingFacts.

(** C8 (counterexample).  The text of the body begins with the line
    [data: [DONE]], followed by one event.  Read in one piece, the
    sentinel ends the call: nothing is delivered and the read after it,
    which would fail, is not made.  Read in two pieces that cut the
    sentinel line, each piece is split into lines on its own and no line
    equals the sentinel: the first piece is logged as a chunk that
    failed to parse, [onChunk] is called for the event after the
    sentinel, and the call throws what the next read throws. *)
Lemma streaming_DONE_cut_by_read :
  split_lines sentinel_text = [DONE; "data: {}"] /\
  body sentinel_whole = Some [Chunk sentinel_text; ReadFailure refused] /\
  body sentinel_cut
    = Some [Chunk "data: [DO"; Chunk (String.append "NE]" (String LF "data: {}"));
            ReadFailure refused] /\
  String.append "data: [DO" (String.append "NE]" (String LF "data: {}")) = sentinel_text /\
  fst (makeStreamingRequest parse_empty_object ignore_chunk (sample_config "k")
         (base_request (sample_config "k") hello true) (answer sentinel_whole))
    = Returned tt /\
  delivered (snd (makeStreamingRequest parse_empty_object ignore_chunk (sample_config "k")
         (base_request (sample_config "k") hello true) (answer sentinel_whole))) = [] /\
  fst (makeStreamingRequest parse_empty_object ignore_chunk (sample_config "k")
         (base_request (sample_config "k") hello true) (answer sentinel_cut))
    = Thrown refused /\
  delivered (snd (makeStreamingRequest parse_empty_object ignore_chunk (sample_config "k")
         (base_request (sample_config "k") hello true) (answer sentinel_cut)))
    = [JObject []] /\
  logged (snd (makeStreamingRequest parse_empty_object ignore_chunk (sample_config "k")
         (base_request (sample_config "k") hello true) (answer sentinel_cut)))
    = [mkLog warn "Failed to parse streaming chunk" "[DO"].
Proof. repeat split. Qed.

(** The sample stream: one chunk delivered, one warning, no error, and
    the line and the chunk after the sentinel not read. *)
Lemma streaming_DONE_and_malformed_witness :
  split_lines second_chunk = ["data: {}"; "data: {oops"] ++ DONE :: ["data: {}"] /\
  fst (makeStreamingRequest parse_empty_object ignore_chunk (sample_config "k")
         (base_request (sample_config "k") hello true) (answer sse_response))
    = Returned tt /\
  delivered (snd (makeStreamingRequest parse_empty_object ignore_chunk (sample_config "k")
         (base_request (sample_config "k") hello true) (answer sse_response)))
    = [JObject []] /\
  logged (snd (makeStreamingRequest parse_empty_object ignore_chunk (sample_config "k")
         (base_request (sample_config "k") hello true) (answer sse_response)))
    = [mkLog warn "Failed to parse streaming chunk" "{oops"].
Proof.
  assert (Hsplit : split_lines second_chunk
                   = ["data: {}"; "data: {oops"] ++ DONE :: ["data: {}"]) by reflexivity.
  split; [exact Hsplit|].
  destruct (streaming_DONE_and_malformed parse_empty_object ignore_chunk)
    as (_ & _ & Hcall & _).
  rewrite (Hcall (sample_config "k") (base_request (sample_config "k") hello true)
             (answer sse_response) sse_response [] [Chunk first_chunk] second_chunk
             ["data: {}"; "data: {oops"] ["data: {}"] [ReadFailure refused]
             (set_lock true (snd (fetch (http (sample_config "k")
                (base_request (sample_config "k") hello true)) (answer sse_response))))
             eq_refl eq_refl eq_refl Hsplit eq_refl).
  repeat split.
Defined.

(** *** Sending, classification and the stream as a whole *)

Lemma sendMessage_run execute config msgs options w :
  transparent execute -> apiKey config <> "" ->
  sendMessage execute config msgs options w =
  let request := override (base_request config msgs false) options in
  match makeRequest config request
          (snd (log debug "Sending message to Z.ai API" "" (E := APIError) w)) with
  | (Returned response, w1) =>
      (Returned response, snd (emit (message_sent request response) (E := APIError) w1))
  | (Thrown e, w1) =>
      (Thrown (handleAPIError e),
       snd (emit (error_event (handleAPIError e)) (E := APIError)
              (snd (log error "Failed to send message to Z.ai API" (getErrorMessage e)
                      (E := APIError) w1))))
  end.
Proof.
  intros Hexec Hkey. apply String.eqb_neq in Hkey.
  unfold sendMessage. unfold bind at 1. cbn [log modify fst snd]. unfold falsy. rewrite Hkey.
  unfold try_catch. rewrite Hexec. unfold bind at 1.
  destruct (makeRequest _ _ _) as [[data|e] w1]; reflexivity.
Qed.

Lemma makeRequest_resolved config request w r rest :
  network w = Resolved r :: rest ->
  makeRequest config request w =
  (if negb (ok r) then Thrown (http_error r)
   else match body_json r with Some data => Returned data | None => Thrown syntax_error end,
   {| network := rest; fetched := http config request :: fetched w; logged := logged w;
      emitted := emitted w; delivered := delivered w; reader_locked := reader_locked w |}).
Proof.
  intros Hnet. unfold makeRequest, bind, fetch. rewrite Hnet.
  destruct (ok r); cbn [negb]; [|reflexivity].
  destruct (body_json r); reflexivity.
Qed.

Ltac through_literal b :=
  repeat match goal with
  | |- context [includes ?t (String.append ?p b)] =>
      first [ change (includes t (String.append p b)) with true
            | change (includes t (String.append p b)) with (includes t b) ]
  end.

Ltac status_case r Hs lit :=
  unfold handleAPIError, getErrorMessage, http_error; rewrite Hs;
  cbn [name message code];
  change (String.eqb "Error" "AbortError") with false; cbv iota;
  set (b := body_text r) in *;
  change (String.append "HTTP " _) with (String.append lit b);
  through_literal b.

Lemma classify_status r :
  (status r = 401 -> handleAPIError (http_error r)
     = mkAPIError ClaudeAuthenticationError "Invalid Z.ai API key") /\
  ((forall t, In t triggers -> includes t (body_text r) = false) ->
   (status r = 429 -> handleAPIError (http_error r)
      = mkAPIError ClaudeRateLimitError "Z.ai API rate limit exceeded") /\
   (status r = 500 \/ status r = 502 \/ status r = 503 ->
    handleAPIError (http_error r) = mkAPIError ClaudeInternalServerError "Z.ai API server error") /\
   (status r = 400 -> handleAPIError (http_error r)
      = mkAPIError ClaudeValidationError "Invalid request to Z.ai API") /\
   (status r = 403 \/ status r = 404 ->
    kind (handleAPIError (http_error r)) = ClaudeAPIError)).
Proof.
  split.
  - intros Hs. status_case r Hs "HTTP 401: ". reflexivity.
  - intros Hb.
    assert (H401 := Hb "401"). assert (Hun := Hb "unauthorized").
    assert (H429 := Hb "429"). assert (Hrl := Hb "rate limit").
    assert (H500 := Hb "500"). assert (H502 := Hb "502"). assert (H503 := Hb "503").
    assert (H400 := Hb "400"). assert (Hbr := Hb "bad request").
    unfold triggers in *.
    specialize (H401 ltac:(simpl; tauto)). specialize (Hun ltac:(simpl; tauto)).
    specialize (H429 ltac:(simpl; tauto)). specialize (Hrl ltac:(simpl; tauto)).
    specialize (H500 ltac:(simpl; tauto)). specialize (H502 ltac:(simpl; tauto)).
    specialize (H503 ltac:(simpl; tauto)). specialize (H400 ltac:(simpl; tauto)).
    specialize (Hbr ltac:(simpl; tauto)).
    clear Hb.
    repeat split.
    + intros Hs. status_case r Hs "HTTP 429: ". now rewrite H401, Hun.
    + intros [Hs|[Hs|Hs]].
      * status_case r Hs "HTTP 500: ". now rewrite H401, Hun, H429, Hrl.
      * status_case r Hs "HTTP 502: ". now rewrite H401, Hun, H429, Hrl, H500.
      * status_case r Hs "HTTP 503: ". now rewrite H401, Hun, H429, Hrl, H500, H502.
    + intros Hs. status_case r Hs "HTTP 400: ".
      now rewrite H401, Hun, H429, Hrl, H500, H502, H503.
    + intros [Hs|Hs].
      * status_case r Hs "HTTP 403: ".
        now rewrite H401, Hun, H429, Hrl, H500, H502, H503, H400, Hbr.
      * status_case r Hs "HTTP 404: ".
        now rewrite H401, Hun, H429, Hrl, H500, H502, H503, H400, Hbr.
Qed.

(** X20.  The rest of the decision list of [handleAPIError], for an error
    that is no [AbortError] and whose message has none of ["401"],
    ["unauthorized"], ["429"], ["rate limit"]: a message with ["500"],
    ["502"] or ["503"] gives [ClaudeInternalServerError]; otherwise one
    with ["400"] or ["bad request"] gives [ClaudeValidationError];
    otherwise the codes [ECONNREFUSED] and [ENOTFOUND] give
    [ClaudeNetworkError]; everything else is a [ClaudeAPIError] whose
    text is the message after ["Z.ai API error: "].  No error is ever
    classified as [ClaudeServiceUnavailableError], an HTTP 503 included. *)
Theorem handleAPIError_decision_list (e : JsError) :
  kind (handleAPIError e) <> ClaudeServiceUnavailableError /\
  (name e <> "AbortError" ->
   includes "401" (message e) || includes "unauthorized" (message e) = false ->
   includes "429" (message e) || includes "rate limit" (message e) = false ->
   (includes "500" (message e) || includes "502" (message e) || includes "503" (message e) = true ->
    handleAPIError e = mkAPIError ClaudeInternalServerError "Z.ai API server error") /\
   (includes "500" (message e) || includes "502" (message e) || includes "503" (message e) = false ->
    (includes "400" (message e) || includes "bad request" (message e) = true ->
     handleAPIError e = mkAPIError ClaudeValidationError "Invalid request to Z.ai API") /\
    (includes "400" (message e) || includes "bad request" (message e) = false ->
     (code e = Some "ECONNREFUSED" \/ code e = Some "ENOTFOUND" ->
      handleAPIError e = mkAPIError ClaudeNetworkError "Cannot connect to Z.ai API") /\
     (code e <> Some "ECONNREFUSED" -> code e <> Some "ENOTFOUND" ->
      handleAPIError e = mkAPIError ClaudeAPIError ("Z.ai API error: " ++ message e)%string)))).
Proof.
  split.
  - unfold handleAPIError.
    repeat match goal with
           | |- context [if ?c then _ else _] => destruct c
           end; discriminate.
  - intros Hn H1 H2. apply String.eqb_neq in Hn.
    unfold handleAPIError, getErrorMessage. rewrite Hn, H1, H2. split.
    + now intros ->.
    + intros ->. split; [now intros ->|]. intros ->. split.
      * intros [->| ->]; reflexivity.
      * intros Hc1 Hc2. destruct (code e) as [c|]; [|reflexivity].
        destruct (String.eqb c "ECONNREFUSED") eqn:E1.
        { apply String.eqb_eq in E1. congruence. }
        destruct (String.eqb c "ENOTFOUND") eqn:E2.
        { apply String.eqb_eq in E2. congruence. }
        reflexivity.
Qed.

(** A refused connection is a network error. *)
Lemma handleAPIError_decision_list_witness :
  handleAPIError refused = mkAPIError ClaudeNetworkError "Cannot connect to Z.ai API" /\
  kind (handleAPIError refused) <> ClaudeServiceUnavailableError.
Proof.
  destruct (handleAPIError_decision_list refused) as [Hnever Hlist].
  split; [|exact Hnever].
  assert (Hname : name refused <> "AbortError") by discriminate.
  destruct (Hlist Hname eq_refl eq_refl) as [_ Hrest].
  destruct (Hrest eq_refl) as [_ Hrest'].
  destruct (Hrest' eq_refl) as [Hnet _].
  apply Hnet. now left.
Defined.

(** X21.  [sendMessage] with a key, through a circuit breaker that lets
    the call through, when the request fails.  A rejected [fetch] and a
    response that is not [ok] are both thrown as their classification,
    which is also emitted as the one [error] event; no [message_sent] is
    emitted.  For a response that is not [ok], the one request made is
    the one built from the configuration and the options, and the status
    decides the class: 401 is an authentication error whatever the body;
    when the body holds none of the substrings the classification looks
    for, 429 is a rate-limit error, 500, 502 and 503 are server errors,
    400 is a validation error, 403 and 404 are plain API errors. *)
Theorem sendMessage_failure
    (execute : forall A, M World JsError A -> M World JsError A)
    (config : ZaiAPIConfig) (msgs : list ZaiMessage) (options : ZaiRequest) (w : World) :
  transparent execute -> apiKey config <> "" ->
  (forall e rest, network w = Rejected e :: rest ->
     fst (sendMessage execute config msgs options w) = Thrown (handleAPIError e) /\
     emitted (snd (sendMessage execute config msgs options w))
       = error_event (handleAPIError e) :: emitted w) /\
  (forall r rest, network w = Resolved r :: rest -> ok r = false ->
     fst (sendMessage execute config msgs options w) = Thrown (handleAPIError (http_error r)) /\
     emitted (snd (sendMessage execute config msgs options w))
       = error_event (handleAPIError (http_error r)) :: emitted w /\
     fetched (snd (sendMessage execute config msgs options w))
       = http config (override (base_request config msgs false) options) :: fetched w /\
     network (snd (sendMessage execute config msgs options w)) = rest /\
     (status r = 401 ->
      handleAPIError (http_error r)
        = mkAPIError ClaudeAuthenticationError "Invalid Z.ai API key") /\
     ((forall t, In t triggers -> includes t (body_text r) = false) ->
      (status r = 429 ->
       handleAPIError (http_error r)
         = mkAPIError ClaudeRateLimitError "Z.ai API rate limit exceeded") /\
      (status r = 500 \/ status r = 502 \/ status r = 503 ->
       handleAPIError (http_error r)
         = mkAPIError ClaudeInternalServerError "Z.ai API server error") /\
      (status r = 400 ->
       handleAPIError (http_error r)
         = mkAPIError ClaudeValidationError "Invalid request to Z.ai API") /\
      (status r = 403 \/ status r = 404 ->
       kind (handleAPIError (http_error r)) = ClaudeAPIError))).
Proof.
  intros Hexec Hkey. split.
  - intros e rest Hnet. rewrite (sendMessage_run _ _ _ _ _ Hexec Hkey). cbv zeta.
    unfold makeRequest, bind, fetch. cbn [log modify snd network]. rewrite Hnet.
    split; reflexivity.
  - intros r rest Hnet Hok. rewrite (sendMessage_run _ _ _ _ _ Hexec Hkey). cbv zeta.
    rewrite (makeRequest_resolved _ _ _ r rest) by exact Hnet.
    rewrite Hok. cbn [negb].
    split; [reflexivity|]. split; [reflexivity|]. split; [reflexivity|].
    split; [reflexivity|]. apply classify_status.
Qed.

(** An HTTP 503 is thrown as a server error, an HTTP 404 as a plain API
    error. *)
Lemma sendMessage_failure_witness :
  fst (sendMessage closed_circuit (sample_config "k") hello no_options (answer unavailable))
    = Thrown (mkAPIError ClaudeInternalServerError "Z.ai API server error") /\
  kind (handleAPIError (http_error missing)) = ClaudeAPIError.
Proof.
  assert (Hexec : transparent closed_circuit) by (intros A c w; reflexivity).
  assert (Hkey : apiKey (sample_config "k") <> "") by discriminate.
  destruct (sendMessage_failure closed_circuit (sample_config "k") hello no_options
              (answer unavailable) Hexec Hkey) as [_ Hhttp].
  destruct (Hhttp unavailable [] eq_refl eq_refl) as (Hthrown & _ & _ & _ & _ & Hstatus).
  destruct (sendMessage_failure closed_circuit (sample_config "k") hello no_options
              (answer missing) Hexec Hkey) as [_ Hhttp'].
  destruct (Hhttp' missing [] eq_refl eq_refl) as (_ & _ & _ & _ & _ & Hstatus').
  assert (Hfree : forall t, In t triggers -> includes t (body_text unavailable) = false).
  { intros t Ht. simpl in Ht.
    repeat (destruct Ht as [<-|Ht]; [reflexivity|]). destruct Ht. }
  assert (Hfree' : forall t, In t triggers -> includes t (body_text missing) = false).
  { intros t Ht. simpl in Ht.
    repeat (destruct Ht as [<-|Ht]; [reflexivity|]). destruct Ht. }
  destruct (Hstatus Hfree) as (_ & Hserver & _).
  destruct (Hstatus' Hfree') as (_ & _ & _ & Hother).
  split.
  - rewrite Hthrown. apply f_equal. apply Hserver. right. now right.
  - apply Hother. now right.
Defined.

(** X22.  [sendMessage] with a key, through a circuit breaker that lets
    the call through, when the response is [ok] and its body is JSON: the
    parsed body is returned; one request is made, to the configured URL,
    with [Bearer] and the key as authorization; one [message_sent] event
    carries the request and the response; the only log line is the debug
    line.  In the request the per-call options win over the
    configuration: [messages] and [stream] included, so a caller can
    replace the messages and can set [stream], which is [false]
    otherwise. *)
Theorem sendMessage_returns
    (execute : forall A, M World JsError A -> M World JsError A)
    (config : ZaiAPIConfig) (msgs : list ZaiMessage) (options : ZaiRequest) (w : World)
    (r : Response) (rest : list FetchResult) (data : JsonValue) :
  transparent execute -> apiKey config <> "" ->
  network w = Resolved r :: rest -> ok r = true -> body_json r = Some data ->
  sendMessage execute config msgs options w =
    (Returned data,
     {| network := rest;
        fetched := {| url := apiUrl config;
                      authorization := ("Bearer " ++ apiKey config)%string;
                      payload := override (base_request config msgs false) options |}
                   :: fetched w;
        logged := mkLog debug "Sending message to Z.ai API" "" :: logged w;
        emitted := message_sent (override (base_request config msgs false) options) data
                   :: emitted w;
        delivered := delivered w;
        reader_locked := reader_locked w |}) /\
  messages (override (base_request config msgs false) options)
    = Some (default msgs (messages options)) /\
  max_tokens (override (base_request config msgs false) options)
    = or_else (max_tokens options) (maxTokens config) /\
  stream (override (base_request config msgs false) options)
    = Some (default false (stream options)).
Proof.
  intros Hexec Hkey Hnet Hok Hjson. split.
  - rewrite (sendMessage_run _ _ _ _ _ Hexec Hkey). cbv zeta.
    rewrite (makeRequest_resolved _ _ _ r rest) by exact Hnet.
    rewrite Hok, Hjson. reflexivity.
  - unfold override, base_request, or_else. simpl.
    repeat split.
    + now destruct (messages options).
    + now destruct (stream options).
Qed.

(** The sample completion. *)
Lemma sendMessage_returns_witness :
  fst (sendMessage closed_circuit (sample_config "k") hello no_options (answer completion))
    = Returned (JObject []) /\
  emitted (snd (sendMessage closed_circuit (sample_config "k") hello no_options
                  (answer completion)))
    = [message_sent (base_request (sample_config "k") hello false) (JObject [])].
Proof.
  assert (Hexec : transparent closed_circuit) by (intros A c w; reflexivity).
  assert (Hkey : apiKey (sample_config "k") <> "") by discriminate.
  destruct (sendMessage_returns closed_circuit (sample_config "k") hello no_options
              (answer completion) completion [] (JObject []) Hexec Hkey
              eq_refl eq_refl eq_refl) as [Hrun _].
  rewrite Hrun. split; reflexivity.
Defined.

(** X23.  With [apiKey = ""], [sendStreamingMessage] throws the
    authentication error right after its debug line, for every circuit
    breaker, parser and callback: no [fetch], no call of [onChunk], no
    event. *)
Theorem sendStreamingMessage_requires_apiKey
    (execute : forall A, M World JsError A -> M World JsError A)
    (JSON_parse : string -> option JsonValue)
    (config : ZaiAPIConfig) (msgs : list ZaiMessage)
    (onChunk : JsonValue -> M World JsError unit) (options : ZaiRequest) (w : World) :
  apiKey config = "" ->
  sendStreamingMessage execute JSON_parse config msgs onChunk options w =
    (Thrown (mkAPIError ClaudeAuthenticationError "Z.ai API key is required"),
     {| network := network w; fetched := fetched w;
        logged := mkLog debug "Sending streaming message to Z.ai API" "" :: logged w;
        emitted := emitted w; delivered := delivered w;
        reader_locked := reader_locked w |}).
Proof.
  intros Hkey. unfold sendStreamingMessage, bind. simpl. rewrite Hkey. reflexivity.
Qed.

(** The answer waiting on the network is still there. *)
Lemma sendStreamingMessage_requires_apiKey_witness :
  fst (sendStreamingMessage closed_circuit parse_empty_object (sample_config "") hello
         ignore_chunk no_options (answer sse_response))
    = Thrown (mkAPIError ClaudeAuthenticationError "Z.ai API key is required") /\
  network (snd (sendStreamingMessage closed_circuit parse_empty_object (sample_config "") hello
         ignore_chunk no_options (answer sse_response))) = [Resolved sse_response].
Proof.
  rewrite (sendStreamingMessage_requires_apiKey closed_circuit parse_empty_object
             (sample_config "") hello ignore_chunk no_options (answer sse_response) eq_refl).
  split; reflexivity.
Defined.

(** X29.  What [getConfig] returns tells two configurations apart
    exactly when they differ in a field other than the key, or when one
    has a key and the other has none. *)
Theorem getConfig_reveals (c1 c2 : ZaiAPIConfig) :
  getConfig c1 = getConfig c2 <->
  with_apiKey tt c1 = with_apiKey tt c2 /\ falsy (apiKey c1) = falsy (apiKey c2).
Proof.
  unfold getConfig. split.
  - intros H. split.
    + apply (f_equal (with_apiKey tt)) in H. exact H.
    + apply (f_equal apiKey) in H. simpl in H.
      destruct (falsy (apiKey c1)), (falsy (apiKey c2)); congruence.
  - intros [H1 H2]. rewrite H2.
    destruct c1, c2. simpl in *. injection H1 as -> -> -> -> -> -> -> -> -> -> -> -> -> -> ->.
    reflexivity.
Qed.

(** Two keys give the same output; a key and no key do not. *)
Lemma getConfig_reveals_witness :
  getConfig (sample_config "key-1") = getConfig (sample_config "key-2") /\
  getConfig (sample_config "key-1") <> getConfig (sample_config "").
Proof.
  split.
  - apply (getConfig_reveals (sample_config "key-1") (sample_config "key-2")).
    split; reflexivity.
  - intros H. apply (getConfig_reveals (sample_config "key-1") (sample_config "")) in H.
    destruct H as [_ H]. discriminate H.
Defined.

Lemma split_lines_cons s : exists l ls, split_lines s = l :: ls.
Proof.
  induction s as [|c s IH]; simpl; [now eexists _, _|].
  destruct (Ascii.eqb c LF); [now eexists _, _|].
  destruct IH as (l & ls & ->). now eexists _, _.
Qed.

(** A line feed between two strings splits them apart. *)
Lemma split_lines_app_LF a b :
  split_lines (a ++ String LF b)%string = split_lines a ++ split_lines b.
Proof.
  induction a as [|c a IH]; [reflexivity|].
  change (String c a ++ String LF b)%string with (String c (a ++ String LF b)%string).
  cbn [split_lines]. destruct (Ascii.eqb c LF).
  - now rewrite IH.
  - rewrite IH. destruct (split_lines_cons a) as (l & ls & ->). reflexivity.
Qed.

Lemma split_lines_join_chunks value more :
  split_lines (join_chunks (value :: more)) = concat (map split_lines (value :: more)).
Proof.
  revert value. induction more as [|value' more IH]; intros value.
  - simpl. now rewrite app_nil_r.
  - change (join_chunks (value :: value' :: more))
      with (value ++ String LF (join_chunks (value' :: more)))%string.
    rewrite split_lines_app_LF, IH. reflexivity.
Qed.

Section StreamingOrder.

Variable JSON_parse : string -> option JsonValue.
Variable onChunk : JsonValue -> M World JsError unit.

Local Abbreviation lines_loop := (process_lines JSON_parse onChunk).
Local Abbreviation reads_loop := (read_loop JSON_parse onChunk).
Local Abbreviation data_step := (handle_data JSON_parse onChunk).

Lemma read_loop_concat values w :
  reads_loop (map Chunk values) w = lines_loop (concat (map split_lines values)) w.
Proof.
  revert w. induction values as [|value more IH]; intros w; [reflexivity|].
  cbn [map concat read_loop]. rewrite process_lines_app. unfold bind.
  destruct (lines_loop (split_lines value) w) as [[[]|e] w']; [reflexivity|apply IH|reflexivity].
Qed.

(** X24.  Reading a body chunk by chunk is running the loop over the
    lines of all chunks put one after the other, each chunk split on its
    own: the stream is processed as if a line feed stood at every chunk
    boundary.  An event that a chunk boundary cuts in two is therefore
    not put together again. *)
Theorem read_loop_chunk_boundaries (values : list string) (w : World) :
  reads_loop (map Chunk values) w = lines_loop (concat (map split_lines values)) w /\
  reads_loop (map Chunk values) w = lines_loop (split_lines (join_chunks values)) w.
Proof.
  split; [apply read_loop_concat|].
  rewrite read_loop_concat. destruct values as [|value more].
  - cbn [map concat join_chunks split_lines]. now rewrite process_lines_cons.
  - now rewrite split_lines_join_chunks.
Qed.

Lemma delivered_handle_data data w :
  (forall chunk w', delivered (snd (onChunk chunk w')) = delivered w') ->
  delivered (snd (data_step data w)) =
  match JSON_parse data with
  | Some parsed => parsed :: delivered w
  | None => delivered w
  end.
Proof.
  intros Hkeep. unfold handle_data, try_catch.
  destruct (JSON_parse data) as [parsed|]; [|reflexivity].
  unfold bind, deliver, modify.
  match goal with |- context [onChunk parsed ?w1] =>
    pose proof (Hkeep parsed w1) as H; destruct (onChunk parsed w1) as [[[]|e] w2] end;
    simpl in *; exact H.
Qed.

Lemma delivered_process_lines lines w :
  (forall chunk w', delivered (snd (onChunk chunk w')) = delivered w') ->
  delivered (snd (lines_loop lines w)) = rev (payloads JSON_parse lines) ++ delivered w.
Proof.
  intros Hkeep. revert w. induction lines as [|line rest IH]; intros w; [reflexivity|].
  rewrite process_lines_cons. cbn [payloads].
  destruct (startsWith "data: " line); [|apply IH].
  destruct (String.eqb (slice 6 line) "[DONE]"); [reflexivity|].
  rewrite IH, (delivered_handle_data _ _ Hkeep).
  destruct (JSON_parse (slice 6 line)) as [parsed|]; [|reflexivity].
  cbn [rev]. now rewrite <- app_assoc.
Qed.

(** X25.  When the callback leaves the record of its own calls alone,
    [onChunk] has been called, in the order of the stream, once for each
    [data: ] line before the sentinel whose payload [JSON.parse]
    accepts, and for nothing else; calls that threw count too. *)
Theorem onChunk_calls_in_order (values : list string) (w : World) :
  (forall chunk w', delivered (snd (onChunk chunk w')) = delivered w') ->
  delivered (snd (reads_loop (map Chunk values) w))
    = rev (payloads JSON_parse (concat (map split_lines values))) ++ delivered w.
Proof.
  intros Hkeep. rewrite read_loop_concat. now apply delivered_process_lines.
Qed.

Lemma read_loop_returns values w :
  exists returned, fst (reads_loop (map Chunk values) w) = Returned returned.
Proof. rewrite read_loop_concat. apply process_lines_returns. Qed.

(** X26.  What [onChunk] throws never reaches the caller: the line is
    logged as a chunk that failed to parse, with the state the callback
    left, and the loop goes on with the next line.  So the loop over
    readable chunks always returns, and so does [makeStreamingRequest] on
    a body all of whose reads succeed, whatever the parser and the
    callback do. *)
Theorem callback_errors_swallowed :
  (forall data parsed e rest w w',
     data <> "[DONE]" -> JSON_parse data = Some parsed ->
     onChunk parsed (snd (deliver parsed w)) = (Thrown e, w') ->
     lines_loop (("data: " ++ data)%string :: rest) w
       = lines_loop rest
           (snd (log warn "Failed to parse streaming chunk" data (E := JsError) w'))) /\
  (forall values w, exists returned,
     fst (reads_loop (map Chunk values) w) = Returned returned) /\
  (forall config request w r rest values,
     network w = Resolved r :: rest -> ok r = true -> body r = Some (map Chunk values) ->
     fst (makeStreamingRequest JSON_parse onChunk config request w) = Returned tt).
Proof.
  split; [|split].
  - intros data parsed e rest w w' Hdone Hparse Hthrow.
    rewrite process_lines_cons.
    change (startsWith "data: " ("data: " ++ data)%string) with (String.prefix "" data).
    change (slice 6 ("data: " ++ data)%string) with data.
    assert (Hp : String.prefix "" data = true) by now destruct data.
    rewrite Hp. apply String.eqb_neq in Hdone. rewrite Hdone.
    unfold handle_data, try_catch. rewrite Hparse. unfold bind at 1.
    change (deliver parsed w) with (Returned (E := JsError) tt, snd (deliver parsed w)).
    cbv iota beta. now rewrite Hthrow.
  - exact read_loop_returns.
  - intros config request w r rest values Hnet Hok Hbody.
    rewrite (makeStreamingRequest_resolved _ _ _ _ _ _ _ _ Hnet Hok Hbody).
    destruct (read_loop_returns values
                (set_lock true (snd (fetch (http config request) w)))) as [b Hb].
    destruct (reads_loop (map Chunk values) _) as [[b'|e] w1]; [reflexivity|discriminate].
Qed.

Lemma read_loop_throws chunks w e :
  fst (reads_loop chunks w) = Thrown e -> In (ReadFailure e) chunks.
Proof.
  revert w. induction chunks as [|[value|e'] more IH]; intros w; [discriminate| |].
  - cbn [read_loop]. unfold bind.
    destruct (process_lines_returns JSON_parse onChunk (split_lines value) w)
      as [b Hb].
    destruct (lines_loop (split_lines value) w) as [[[]|e''] w']; cbn [fst] in *;
      [discriminate| |discriminate].
    intros H. right. now apply (IH w').
  - cbn [read_loop]. unfold throw. cbn [fst]. intros [= ->]. now left.
Qed.

(** X27.  The ways [makeStreamingRequest] ends.  A rejected [fetch], a
    response that is not [ok] and a response without a body each throw
    (the rejection, [HTTP status: text], the missing-body error) after
    the one request, with no line read, no callback called and the
    reader never locked.  With a body, the reader's lock is released
    however the loop ends; the call throws only what a failed read
    threw, and a failed read met before any sentinel is thrown with the
    state the chunks before it left. *)
Theorem makeStreamingRequest_outcomes (config : ZaiAPIConfig) (request : ZaiRequest) (w : World) :
  let sent :=
    {| network := tl (network w); fetched := http config request :: fetched w;
       logged := logged w; emitted := emitted w; delivered := delivered w;
       reader_locked := reader_locked w |} in
  (forall e rest, network w = Rejected e :: rest ->
     makeStreamingRequest JSON_parse onChunk config request w = (Thrown e, sent)) /\
  (forall r rest, network w = Resolved r :: rest -> ok r = false ->
     makeStreamingRequest JSON_parse onChunk config request w = (Thrown (http_error r), sent)) /\
  (forall r rest, network w = Resolved r :: rest -> ok r = true -> body r = None ->
     makeStreamingRequest JSON_parse onChunk config request w =
       (Thrown {| name := "Error"; message := "No response body for streaming request";
                  code := None |}, sent)) /\
  (forall r rest chunks, network w = Resolved r :: rest -> ok r = true ->
     body r = Some chunks ->
     reader_locked (snd (makeStreamingRequest JSON_parse onChunk config request w)) = false /\
     (forall e, fst (makeStreamingRequest JSON_parse onChunk config request w) = Thrown e ->
                In (ReadFailure e) chunks) /\
     (forall before e more w1,
        chunks = before ++ ReadFailure e :: more ->
        reads_loop before (set_lock true sent) = (Returned false, w1) ->
        makeStreamingRequest JSON_parse onChunk config request w
          = (Thrown e, set_lock false w1))).
Proof.
  cbv zeta. split; [|split; [|split]].
  - intros e rest Hnet. unfold makeStreamingRequest, bind, fetch. now rewrite Hnet.
  - intros r rest Hnet Hok. unfold makeStreamingRequest, bind, fetch. now rewrite Hnet, Hok.
  - intros r rest Hnet Hok Hbody. unfold makeStreamingRequest, bind, fetch.
    now rewrite Hnet, Hok, Hbody.
  - intros r rest chunks Hnet Hok Hbody.
    rewrite (makeStreamingRequest_resolved _ _ _ _ _ _ _ _ Hnet Hok Hbody).
    assert (Hsent : snd (fetch (http config request) w) =
      {| network := tl (network w); fetched := http config request :: fetched w;
         logged := logged w; emitted := emitted w; delivered := delivered w;
         reader_locked := reader_locked w |}).
    { unfold fetch. now rewrite Hnet. }
    rewrite Hsent. split; [|split].
    + destruct (reads_loop chunks _) as [o w1]. reflexivity.
    + intros e. pose proof (read_loop_throws chunks
        (set_lock true {| network := tl (network w); fetched := http config request :: fetched w;
         logged := logged w; emitted := emitted w; delivered := delivered w;
         reader_locked := reader_locked w |}) e) as Hth.
      destruct (reads_loop chunks _) as [[b|e'] w1]; cbn [fst] in *; [discriminate|].
      intros [= ->]. now apply Hth.
    + intros before e more w1 -> Hbefore.
      rewrite read_loop_app, Hbefore. reflexivity.
Qed.

End StreamingOrder.

(** The event [data: {}] in one chunk is delivered; cut after the brace
    it is a line that fails to parse and a line that is no event. *)
Lemma read_loop_chunk_boundaries_witness :
  split_lines (join_chunks cut_body) = ["data: {"; "}"] /\
  delivered (snd (read_loop parse_empty_object ignore_chunk (map Chunk cut_body)
                    (answer completion))) = [] /\
  logged (snd (read_loop parse_empty_object ignore_chunk (map Chunk cut_body)
                 (answer completion)))
    = [mkLog warn "Failed to parse streaming chunk" "{"] /\
  delivered (snd (read_loop parse_empty_object ignore_chunk (map Chunk ["data: {}"])
                    (answer completion))) = [JObject []].
Proof.
  split; [reflexivity|].
  rewrite (proj2 (read_loop_chunk_boundaries parse_empty_object ignore_chunk cut_body
                    (answer completion))).
  rewrite (proj2 (read_loop_chunk_boundaries parse_empty_object ignore_chunk ["data: {}"]
                    (answer completion))).
  repeat split.
Defined.

(** The sample stream has one accepted event before the sentinel. *)
Lemma onChunk_calls_in_order_witness :
  delivered (snd (read_loop parse_empty_object ignore_chunk
                    (map Chunk [first_chunk; second_chunk]) (answer sse_response)))
    = [JObject []].
Proof.
  rewrite (onChunk_calls_in_order parse_empty_object ignore_chunk
             [first_chunk; second_chunk] (answer sse_response)); [reflexivity|].
  intros chunk w'. reflexivity.
Defined.

(** A callback that always throws: the call returns, the event is
    logged as a parse failure. *)
Lemma callback_errors_swallowed_witness :
  fst (makeStreamingRequest parse_empty_object failing_chunk (sample_config "k")
         (base_request (sample_config "k") hello true) (answer single_event)) = Returned tt /\
  logged (snd (process_lines parse_empty_object failing_chunk ["data: {}"]
                 (answer single_event)))
    = [mkLog warn "Failed to parse streaming chunk" "{}"].
Proof.
  destruct (callback_errors_swallowed parse_empty_object failing_chunk) as (Hline & _ & Hcall).
  split.
  - apply (Hcall (sample_config "k") (base_request (sample_config "k") hello true)
             (answer single_event) single_event [] ["data: {}"]); reflexivity.
  - change ["data: {}"] with [("data: " ++ "{}")%string].
    rewrite (Hline "{}" (JObject []) {| name := "Error"; message := "callback failed";
                                         code := None |} []
               (answer single_event) (snd (deliver (JObject []) (answer single_event))));
      [reflexivity|discriminate|reflexivity|reflexivity].
Defined.

(** A body whose second read fails: the failure is thrown and the lock
    is released. *)
Lemma makeStreamingRequest_outcomes_witness :
  makeStreamingRequest parse_empty_object ignore_chunk (sample_config "k")
     (base_request (sample_config "k") hello true) (answer broken_response)
  = (Thrown refused,
     {| network := [];
        fetched := [http (sample_config "k") (base_request (sample_config "k") hello true)];
        logged := []; emitted := []; delivered := []; reader_locked := false |}).
Proof.
  destruct (makeStreamingRequest_outcomes parse_empty_object ignore_chunk (sample_config "k")
              (base_request (sample_config "k") hello true) (answer broken_response))
    as (_ & _ & _ & Hbody).
  destruct (Hbody broken_response [] [Chunk first_chunk; ReadFailure refused]
              eq_refl eq_refl eq_refl) as (_ & _ & Hfail).
  rewrite (Hfail [Chunk first_chunk] refused [] _ eq_refl eq_refl). reflexivity.
Defined.

(** X28.  [sendStreamingMessage] with a key, through a circuit breaker
    that lets the call through, on a response that is [ok] and whose
    reads all succeed: it returns normally whatever the parser and the
    callback do, with the lock released and [streaming_message_sent]
    emitted last; the callback has been called for the accepted events
    of the stream, in order. *)
Theorem sendStreamingMessage_completes
    (execute : forall A, M World JsError A -> M World JsError A)
    (JSON_parse : string -> option JsonValue)
    (config : ZaiAPIConfig) (msgs : list ZaiMessage)
    (onChunk : JsonValue -> M World JsError unit) (options : ZaiRequest) (w : World)
    (r : Response) (rest : list FetchResult) (values : list string) :
  transparent execute -> apiKey config <> "" ->
  network w = Resolved r :: rest -> ok r = true -> body r = Some (map Chunk values) ->
  sendStreamingMessage execute JSON_parse config msgs onChunk options w =
    (Returned tt,
     snd (emit (streaming_message_sent (override (base_request config msgs true) options))
            (E := APIError)
            (set_lock false
               (snd (process_lines JSON_parse onChunk (concat (map split_lines values))
                  {| network := rest;
                     fetched := http config (override (base_request config msgs true) options)
                                :: fetched w;
                     logged := mkLog debug "Sending streaming message to Z.ai API" ""
                               :: logged w;
                     emitted := emitted w; delivered := delivered w;
                     reader_locked := true |}))))) /\
  ((forall chunk w', delivered (snd (onChunk chunk w')) = delivered w') ->
   delivered (snd (sendStreamingMessage execute JSON_parse config msgs onChunk options w))
     = rev (payloads JSON_parse (concat (map split_lines values))) ++ delivered w).
Proof.
  intros Hexec Hkey Hnet Hok Hbody.
  assert (Hrun : sendStreamingMessage execute JSON_parse config msgs onChunk options w =
    (Returned tt,
     snd (emit (streaming_message_sent (override (base_request config msgs true) options))
            (E := APIError)
            (set_lock false
               (snd (process_lines JSON_parse onChunk (concat (map split_lines values))
                  {| network := rest;
                     fetched := http config (override (base_request config msgs true) options)
                                :: fetched w;
                     logged := mkLog debug "Sending streaming message to Z.ai API" ""
                               :: logged w;
                     emitted := emitted w; delivered := delivered w;
                     reader_locked := true |})))))).
  { apply String.eqb_neq in Hkey.
    unfold sendStreamingMessage. unfold bind at 1. cbn [log modify fst snd].
    unfold falsy. rewrite Hkey. unfold try_catch. rewrite Hexec. unfold bind at 1.
    rewrite (makeStreamingRequest_resolved _ _ _ _ _ r rest (map Chunk values))
      by assumption.
    rewrite read_loop_concat.
    set (w0 := {| network := rest;
                  fetched := http config (override (base_request config msgs true) options)
                             :: fetched w;
                  logged := mkLog debug "Sending streaming message to Z.ai API" "" :: logged w;
                  emitted := emitted w; delivered := delivered w; reader_locked := true |}).
    assert (Hw0 : set_lock true
              (snd (fetch (http config (override (base_request config msgs true) options))
                 {| network := network w; fetched := fetched w;
                    logged := mkLog debug "Sending streaming message to Z.ai API" ""
                              :: logged w;
                    emitted := emitted w; delivered := delivered w;
                    reader_locked := reader_locked w |})) = w0).
    { unfold fetch. cbn [network]. rewrite Hnet. reflexivity. }
    rewrite Hw0.
    destruct (process_lines_returns JSON_parse onChunk
                (concat (map split_lines values)) w0) as [b Hb].
    destruct (process_lines JSON_parse onChunk (concat (map split_lines values)) w0)
      as [[b'|e] w1]; [reflexivity|discriminate]. }
  split; [exact Hrun|].
  intros Hkeep. rewrite Hrun. cbn [snd emit modify delivered set_lock].
  now rewrite (delivered_process_lines _ _ _ _ Hkeep).
Qed.

(** A body of one event. *)
Lemma sendStreamingMessage_completes_witness :
  fst (sendStreamingMessage closed_circuit parse_empty_object (sample_config "k") hello
         ignore_chunk no_options (answer single_event)) = Returned tt /\
  delivered (snd (sendStreamingMessage closed_circuit parse_empty_object (sample_config "k")
         hello ignore_chunk no_options (answer single_event))) = [JObject []].
Proof.
  assert (Hexec : transparent closed_circuit) by (intros A c w; reflexivity).
  assert (Hkey : apiKey (sample_config "k") <> "") by discriminate.
  destruct (sendStreamingMessage_completes closed_circuit parse_empty_object
              (sample_config "k") hello ignore_chunk no_options (answer single_event)
              single_event [] ["data: {}"] Hexec Hkey eq_refl eq_refl eq_refl)
    as [Hrun Hdelivered].
  split; [now rewrite Hrun|].
  rewrite Hdelivered; [reflexivity|]. intros chunk w'. reflexivity.
Defined.

(** Without a key nothing is sent. *)
Lemma sendMessage_without_key execute config msgs options w :
  apiKey config = "" ->
  sendMessage execute config msgs options w =
    (Thrown (mkAPIError ClaudeAuthenticationError "Z.ai API key is required"),
     {| network := network w; fetched := fetched w;
        logged := mkLog debug "Sending message to Z.ai API" "" :: logged w;
        emitted := emitted w; delivered := delivered w;
        reader_locked := reader_locked w |}).
Proof.
  intros Hkey. unfold sendMessage, bind. simpl. rewrite Hkey. reflexivity.
Qed.

(** X30.  [performHealthCheck] always returns a result, for every
    circuit breaker and every answer of the network: the result is
    stored as the last health check and emitted once; it is healthy
    exactly when the test message was sent without error, and carries
    the error's message otherwise; the response time is the difference
    of the two clock readings.  Without a key the result is unhealthy
    with the message of the missing key, and no request is made. *)
Theorem performHealthCheck_reports
    (execute : forall A, M World JsError A -> M World JsError A)
    (config : ZaiAPIConfig) (startTime endTime date : Z) (s : Monitored) :
  exists result,
    fst (performHealthCheck execute config startTime endTime date s) = Returned result /\
    getLastHealthCheck (snd (performHealthCheck execute config startTime endTime date s))
      = Some result /\
    health_checks (snd (performHealthCheck execute config startTime endTime date s))
      = result :: health_checks s /\
    client (snd (performHealthCheck execute config startTime endTime date s))
      = snd (sendMessage execute config [testMessage] health_options (client s)) /\
    responseTime result = endTime - startTime /\
    match fst (sendMessage execute config [testMessage] health_options (client s)) with
    | Returned _ => healthy result = true /\ health_error result = None
    | Thrown e => healthy result = false /\ health_error result = Some (text e)
    end /\
    (apiKey config = "" ->
     healthy result = false /\
     health_error result = Some "Z.ai API key is required" /\
     fetched (client (snd (performHealthCheck execute config startTime endTime date s)))
       = fetched (client s)).
Proof.
  unfold performHealthCheck, try_catch, bind, lift, report, modify, ret, getLastHealthCheck.
  pose proof (sendMessage_without_key execute config [testMessage]
                health_options (client s)) as Hkey.
  destruct (sendMessage execute config [testMessage] health_options (client s))
    as [[data|e] w1]; cbn [fst snd] in *.
  - eexists. do 6 (split; [reflexivity + (split; reflexivity)|]).
    intros Hk. specialize (Hkey Hk). discriminate.
  - eexists. do 6 (split; [reflexivity + (split; reflexivity)|]).
    intros Hk. specialize (Hkey Hk). injection Hkey as -> ->.
    repeat split.
Qed.

(** A client without a key, and a client with a key that gets an
    answer. *)
Lemma performHealthCheck_reports_witness :
  (exists result,
     fst (performHealthCheck closed_circuit (sample_config "") 1000 1002 1002
            (unmonitored (answer completion))) = Returned result /\
     healthy result = false /\ health_error result = Some "Z.ai API key is required" /\
     responseTime result = 2) /\
  (exists result,
     fst (performHealthCheck closed_circuit (sample_config "k") 1000 1250 1250
            (unmonitored (answer completion))) = Returned result /\
     healthy result = true /\ responseTime result = 250).
Proof.
  split.
  - destruct (performHealthCheck_reports closed_circuit (sample_config "") 1000 1002 1002
                (unmonitored (answer completion)))
      as (result & Hrun & _ & _ & _ & Htime & _ & Hkey).
    destruct (Hkey eq_refl) as (Hh & He & _).
    exists result. now rewrite Htime.
  - destruct (performHealthCheck_reports closed_circuit (sample_config "k") 1000 1250 1250
                (unmonitored (answer completion)))
      as (result & Hrun & _ & _ & _ & Htime & [Hh _] & _).
    exists result. now rewrite Htime.
Defined.

End ClientFacts.
